(** * Business Plan Review: the discussion / notification store and its API

    A shallow embedding of the server half of [app.js]: the in-memory
    session map, the JSON file database ([loadDB], [saveDB],
    [initializeDB]) and the Express route handlers that read and mutate
    the global [db] object.

    Conventions of the embedding.
    - JavaScript numbers are modelled as exact integers ([Z]); [NaN], which
      [parseInt] can return, is kept apart ([option Z], [SNaN]).  The
      model is therefore the program on safe integers.
    - JavaScript strings are modelled as byte strings ([string]), read as
      UTF-8.
    - A field of a request body is a JSON scalar or is missing ([jsval]);
      bodies that put an object or an array in a field are left out.
    - [JSON.stringify] and [JSON.parse] are modelled between the store and
      JSON values ([Json.json]): what is kept, dropped or changed when a
      value is written, not the layout of the text.
    - A timestamp string produced by [new Date().toISOString()] is
      modelled by the instant it denotes, in milliseconds ([Z]);
      [new Date(s)] on such a string gives that instant back.
    - A property holding [undefined] and an absent property are not told
      apart ([VUndefined]); the program only ever reads properties.
    - Every [new Date()] / [Date.now()] reads an environment clock, here an
      arbitrary function [clock] from the number of reads made so far. *)

From Stdlib Require Import ZArith List String Ascii Bool Lia Sorted Permutation.
From stdpp Require Import gmap strings pretty.
Import ListNotations.

Set Warnings "-register-all".

Local Open Scope Z_scope.
Local Open Scope string_scope.

(** ** JavaScript values and primitives *)

Module JS.

(** The scalar values a parsed JSON request body can hold in a field,
    plus [undefined] for a field that is not there. *)
Inductive jsval : Type :=
| VUndefined
| VNull
| VBool (b : bool)
| VNum (z : Z)
| VStr (s : string).

Definition jsval_eqb (a b : jsval) : bool :=
  match a, b with
  | VUndefined, VUndefined => true
  | VNull, VNull => true
  | VBool x, VBool y => Bool.eqb x y
  | VNum x, VNum y => Z.eqb x y
  | VStr x, VStr y => String.eqb x y
  | _, _ => false
  end.

(** [a === b] *)
Definition strict_eq : jsval -> jsval -> bool := jsval_eqb.

(** ToBoolean: the test of [if (v)], [v ? a : b], [!v]. *)
Definition truthy (v : jsval) : bool :=
  match v with
  | VUndefined | VNull => false
  | VBool b => b
  | VNum z => negb (Z.eqb z 0)
  | VStr s => negb (String.eqb s "")
  end.

(** ToString, as applied by template literals and by [parseInt]. *)
Definition ToString (v : jsval) : string :=
  match v with
  | VUndefined => "undefined"
  | VNull => "null"
  | VBool true => "true"
  | VBool false => "false"
  | VNum z => pretty z
  | VStr s => s
  end.

Definition byte_is (c : ascii) (n : nat) : bool := Nat.eqb (nat_of_ascii c) n.

(** One-byte white space: TAB, LF, VT, FF, CR, SP. *)
Definition ws1 (c : ascii) : bool :=
  let n := nat_of_ascii c in
  (Nat.leb 9 n && Nat.leb n 13) || Nat.eqb n 32.

(** U+00A0, encoded C2 A0. *)
Definition ws2 (c1 c2 : ascii) : bool := byte_is c1 194 && byte_is c2 160.

(** The three-byte white space and line terminators: U+1680, U+2000..U+200A,
    U+2028, U+2029, U+202F, U+205F, U+3000, U+FEFF. *)
Definition ws3 (c1 c2 c3 : ascii) : bool :=
  let n3 := nat_of_ascii c3 in
  (byte_is c1 225 && byte_is c2 154 && byte_is c3 128)
  || (byte_is c1 226 && byte_is c2 128
      && ((Nat.leb 128 n3 && Nat.leb n3 138)
          || Nat.eqb n3 168 || Nat.eqb n3 169 || Nat.eqb n3 175))
  || (byte_is c1 226 && byte_is c2 129 && byte_is c3 159)
  || (byte_is c1 227 && byte_is c2 128 && byte_is c3 128)
  || (byte_is c1 239 && byte_is c2 187 && byte_is c3 191).

(** Drop leading white space (the first step of [parseInt], and of
    [String.prototype.trim] on the left). *)
Fixpoint skipWS (s : string) : string :=
  match s with
  | String c1 r1 =>
      if ws1 c1 then skipWS r1
      else match r1 with
           | String c2 r2 =>
               if ws2 c1 c2 then skipWS r2
               else match r2 with
                    | String c3 r3 => if ws3 c1 c2 c3 then skipWS r3 else s
                    | EmptyString => s
                    end
           | EmptyString => s
           end
  | EmptyString => s
  end.

(** A string that [trim()] reduces to the empty string: white space only. *)
Definition blank (s : string) : bool := String.eqb (skipWS s) "".

Definition digit_val (c : ascii) : option Z :=
  let n := nat_of_ascii c in
  if Nat.leb 48 n && Nat.leb n 57 then Some (Z.of_nat (n - 48))
  else if Nat.leb 97 n && Nat.leb n 122 then Some (Z.of_nat (n - 87))
  else if Nat.leb 65 n && Nat.leb n 90 then Some (Z.of_nat (n - 55))
  else None.

(** The longest prefix of digits of radix [R], accumulated left to right;
    [None] when there is not even one digit. *)
Fixpoint digits (R : Z) (s : string) (acc : option Z) : option Z :=
  match s with
  | String c r =>
      match digit_val c with
      | Some d =>
          if Z.ltb d R
          then digits R r (Some (match acc with Some a => a * R + d | None => d end))
          else acc
      | None => acc
      end
  | EmptyString => acc
  end.

Definition is_x (c : ascii) : bool := byte_is c 120 || byte_is c 88.

(** [parseInt(s)] with no radix argument; [None] is [NaN]. *)
Definition parseInt_string (s : string) : option Z :=
  let s1 := skipWS s in
  let '(sign, s2) :=
    match s1 with
    | String c r =>
        if byte_is c 45 then (-1, r)
        else if byte_is c 43 then (1, r)
        else (1, s1)
    | EmptyString => (1, s1)
    end in
  let '(R, s3) :=
    match s2 with
    | String c0 (String cx r) =>
        if byte_is c0 48 && is_x cx then (16, r) else (10, s2)
    | _ => (10, s2)
    end in
  match digits R s3 None with
  | Some n => Some (sign * n)
  | None => None
  end.

(** [parseInt(v)] *)
Definition parseInt (v : jsval) : option Z := parseInt_string (ToString v).

(** [x === parseInt(..)] for a number [x]: never true against [NaN]. *)
Definition eq_parsed (x : Z) (p : option Z) : bool :=
  match p with
  | Some k => Z.eqb x k
  | None => false
  end.

End JS.
Import JS.

(** ** Data model

    The records of the JSON document held in the global [db]. Fields that
    the handlers copy from a request body without inspection keep the type
    [jsval]. *)

(** [section_id] of a discussion: [null], the [NaN] that [parseInt] gives
    for a non-numeric value, or a number. *)
Inductive sectionRef : Type :=
| SNull
| SNaN
| SId (z : Z).

Record DocSection : Type := mkSection {
  s_id : Z;
  s_title : jsval;
  s_level : Z;
  s_content : jsval;
  s_updated_at : option Z
}.

Record Reply : Type := mkReply {
  r_id : Z;
  r_text : jsval;
  r_author : jsval;
  r_created_at : Z
}.

Record Discussion : Type := mkDiscussion {
  d_id : Z;
  d_section_id : sectionRef;
  d_type : jsval;
  d_text : jsval;
  d_author : jsval;
  d_resolved : jsval;
  d_resolved_by : jsval;
  d_resolved_at : option Z;
  d_created_at : Z;
  d_replies : list Reply
}.

Record Notification : Type := mkNotification {
  n_id : Z;
  n_user : string;
  n_type : jsval;
  n_message : string;
  n_discussion_id : Z;
  n_read : bool;
  n_created_at : Z
}.

(** [nextId: { discussion, reply, notification }] *)
Record NextId : Type := mkNextId {
  next_discussion : Z;
  next_reply : Z;
  next_notification : Z
}.

Record DB : Type := mkDB {
  sections : list DocSection;
  discussions : list Discussion;
  notifications : list Notification;
  nextId : NextId
}.

(** [s.id === d.section_id] *)
Definition id_is_ref (x : Z) (r : sectionRef) : bool :=
  match r with
  | SId z => Z.eqb x z
  | SNull | SNaN => false
  end.

(** [d.section_id === parseInt(..)] *)
Definition ref_eq_parsed (r : sectionRef) (p : option Z) : bool :=
  match r, p with
  | SId z, Some k => Z.eqb z k
  | _, _ => false
  end.

(** The first element satisfying [p] is replaced by its image under [f]:
    what a mutation of the object returned by [Array.prototype.find] does
    to the array. *)
Fixpoint update_first {A : Type} (p : A -> bool) (f : A -> A) (l : list A) : list A :=
  match l with
  | [] => []
  | x :: r => if p x then f x :: r else x :: update_first p f r
  end.

(** ** Session store *)

Module Session.

(** [const sessions = new Map()], from token to [expiresAt]. *)
Abbreviation sessions := (gmap string Z).

Definition WEEK_MS : Z := 7 * 24 * 60 * 60 * 1000.

(** [createSession], with the token drawn by [generateToken] and the
    reading of [Date.now()] as arguments. *)
Definition createSession (token : string) (now : Z) (ss : sessions) : string * sessions :=
  (token, <[token := now + WEEK_MS]> ss).

(** [sessions.get(token)] for an arbitrary value: the map only has
    string keys. *)
Definition sessions_get (token : jsval) (ss : sessions) : option Z :=
  match token with
  | VStr t => ss !! t
  | _ => None
  end.

Definition sessions_delete (token : jsval) (ss : sessions) : sessions :=
  match token with
  | VStr t => delete t ss
  | _ => ss
  end.

(** [validateSession(token)]: the answer and the session map afterwards. *)
Definition validateSession (now : Z) (token : jsval) (ss : sessions) : bool * sessions :=
  if negb (truthy token) then (false, ss)
  else match sessions_get token ss with
       | None => (false, ss)
       | Some expiresAt =>
           if Z.ltb expiresAt now
           then (false, sessions_delete token ss)
           else (true, ss)
       end.

(** The body of [POST /api/logout] as far as the map is concerned. *)
Definition logout (token : jsval) (ss : sessions) : sessions :=
  if truthy token then sessions_delete token ss else ss.

End Session.

(** ** The persisted document *)

Module Json.

(** JSON values. [JTime t] stands for the JSON string that spells the
    instant [t] in ISO-8601, following the convention for timestamps. *)
Inductive json : Type :=
| JNull
| JBool (b : bool)
| JNum (z : Z)
| JStr (s : string)
| JTime (t : Z)
| JArr (xs : list json)
| JObj (kvs : list (string * json)).

(** A property is written unless its value is [undefined]. *)
Definition prop (k : string) (v : option json) : list (string * json) :=
  match v with
  | Some j => [(k, j)]
  | None => []
  end.

(** Reading property [k] of a parsed object; when a key is repeated in
    the text the last occurrence wins. *)
Fixpoint get (k : string) (kvs : list (string * json)) : option json :=
  match kvs with
  | [] => None
  | (k', v) :: r =>
      match get k r with
      | Some x => Some x
      | None => if String.eqb k k' then Some v else None
      end
  end.

(** *** [JSON.stringify] on the values of the store *)

Definition of_val (v : jsval) : option json :=
  match v with
  | VUndefined => None
  | VNull => Some JNull
  | VBool b => Some (JBool b)
  | VNum z => Some (JNum z)
  | VStr s => Some (JStr s)
  end.

(** [NaN] is written as [null]. *)
Definition of_ref (r : sectionRef) : json :=
  match r with
  | SNull | SNaN => JNull
  | SId z => JNum z
  end.

Definition of_time_opt (t : option Z) : json :=
  match t with
  | Some x => JTime x
  | None => JNull
  end.

(** An object literal: the properties in order, those whose value is
    [undefined] left out. *)
Definition obj (fields : list (string * option json)) : json :=
  JObj (flat_map (fun '(k, v) => prop k v) fields).

Definition of_section (s : DocSection) : json :=
  obj [("id", Some (JNum (s_id s)));
       ("title", of_val (s_title s));
       ("level", Some (JNum (s_level s)));
       ("content", of_val (s_content s));
       ("updated_at", option_map JTime (s_updated_at s))].

Definition of_reply (r : Reply) : json :=
  obj [("id", Some (JNum (r_id r)));
       ("text", of_val (r_text r));
       ("author", of_val (r_author r));
       ("created_at", Some (JTime (r_created_at r)))].

Definition of_discussion (d : Discussion) : json :=
  obj [("id", Some (JNum (d_id d)));
       ("section_id", Some (of_ref (d_section_id d)));
       ("type", of_val (d_type d));
       ("text", of_val (d_text d));
       ("author", of_val (d_author d));
       ("resolved", of_val (d_resolved d));
       ("resolved_by", of_val (d_resolved_by d));
       ("resolved_at", Some (of_time_opt (d_resolved_at d)));
       ("created_at", Some (JTime (d_created_at d)));
       ("replies", Some (JArr (map of_reply (d_replies d))))].

Definition of_notification (n : Notification) : json :=
  obj [("id", Some (JNum (n_id n)));
       ("user", Some (JStr (n_user n)));
       ("type", of_val (n_type n));
       ("message", Some (JStr (n_message n)));
       ("discussion_id", Some (JNum (n_discussion_id n)));
       ("read", Some (JBool (n_read n)));
       ("created_at", Some (JTime (n_created_at n)))].

Definition of_nextId (c : NextId) : json :=
  JObj [("discussion", JNum (next_discussion c));
        ("reply", JNum (next_reply c));
        ("notification", JNum (next_notification c))].

(** [JSON.stringify(data, null, 2)], up to the layout of the text. *)
Definition stringify (data : DB) : json :=
  JObj [("sections", JArr (map of_section (sections data)));
        ("discussions", JArr (map of_discussion (discussions data)));
        ("notifications", JArr (map of_notification (notifications data)));
        ("nextId", of_nextId (nextId data))].

(** *** [JSON.parse], read back at the types of the store

    [None] means that the document does not have the shape of a store
    (a state this model does not cover). *)

Definition to_val (o : option json) : option jsval :=
  match o with
  | None => Some VUndefined
  | Some JNull => Some VNull
  | Some (JBool b) => Some (VBool b)
  | Some (JNum z) => Some (VNum z)
  | Some (JStr s) => Some (VStr s)
  | Some _ => None
  end.

Definition to_num (o : option json) : option Z :=
  match o with Some (JNum z) => Some z | _ => None end.

Definition to_str (o : option json) : option string :=
  match o with Some (JStr s) => Some s | _ => None end.

Definition to_bool (o : option json) : option bool :=
  match o with Some (JBool b) => Some b | _ => None end.

Definition to_time (o : option json) : option Z :=
  match o with Some (JTime t) => Some t | _ => None end.

Definition to_ref (o : option json) : option sectionRef :=
  match o with
  | Some JNull => Some SNull
  | Some (JNum z) => Some (SId z)
  | _ => None
  end.

(** [null] or a timestamp. *)
Definition to_time_null (o : option json) : option (option Z) :=
  match o with
  | Some JNull => Some None
  | Some (JTime t) => Some (Some t)
  | _ => None
  end.

(** Absent or a timestamp. *)
Definition to_time_absent (o : option json) : option (option Z) :=
  match o with
  | None => Some None
  | Some (JTime t) => Some (Some t)
  | _ => None
  end.

Fixpoint all_some {A B : Type} (f : A -> option B) (l : list A) : option (list B) :=
  match l with
  | [] => Some []
  | x :: r =>
      match f x, all_some f r with
      | Some y, Some ys => Some (y :: ys)
      | _, _ => None
      end
  end.

Definition to_list {B : Type} (f : json -> option B) (o : option json) : option (list B) :=
  match o with
  | Some (JArr xs) => all_some f xs
  | _ => None
  end.

Definition to_section (j : json) : option DocSection :=
  match j with
  | JObj o =>
      match to_num (get "id" o), to_val (get "title" o), to_num (get "level" o),
            to_val (get "content" o), to_time_absent (get "updated_at" o) with
      | Some i, Some t, Some l, Some c, Some u => Some (mkSection i t l c u)
      | _, _, _, _, _ => None
      end
  | _ => None
  end.

Definition to_reply (j : json) : option Reply :=
  match j with
  | JObj o =>
      match to_num (get "id" o), to_val (get "text" o), to_val (get "author" o),
            to_time (get "created_at" o) with
      | Some i, Some t, Some a, Some c => Some (mkReply i t a c)
      | _, _, _, _ => None
      end
  | _ => None
  end.

Definition to_discussion (j : json) : option Discussion :=
  match j with
  | JObj o =>
      match to_num (get "id" o), to_ref (get "section_id" o), to_val (get "type" o),
            to_val (get "text" o), to_val (get "author" o) with
      | Some i, Some s, Some ty, Some tx, Some au =>
          match to_val (get "resolved" o), to_val (get "resolved_by" o),
                to_time_null (get "resolved_at" o), to_time (get "created_at" o),
                to_list to_reply (get "replies" o) with
          | Some r, Some rb, Some ra, Some c, Some rs =>
              Some (mkDiscussion i s ty tx au r rb ra c rs)
          | _, _, _, _, _ => None
          end
      | _, _, _, _, _ => None
      end
  | _ => None
  end.

Definition to_notification (j : json) : option Notification :=
  match j with
  | JObj o =>
      match to_num (get "id" o), to_str (get "user" o), to_val (get "type" o),
            to_str (get "message" o) with
      | Some i, Some u, Some ty, Some m =>
          match to_num (get "discussion_id" o), to_bool (get "read" o),
                to_time (get "created_at" o) with
          | Some di, Some r, Some c => Some (mkNotification i u ty m di r c)
          | _, _, _ => None
          end
      | _, _, _, _ => None
      end
  | _ => None
  end.

Definition to_nextId (o : option json) : option NextId :=
  match o with
  | Some (JObj c) =>
      match to_num (get "discussion" c), to_num (get "reply" c),
            to_num (get "notification" c) with
      | Some d, Some r, Some n => Some (mkNextId d r n)
      | _, _, _ => None
      end
  | _ => None
  end.

Definition parse (j : json) : option DB :=
  match j with
  | JObj o =>
      match to_list to_section (get "sections" o),
            to_list to_discussion (get "discussions" o),
            to_list to_notification (get "notifications" o),
            to_nextId (get "nextId" o) with
      | Some s, Some d, Some n, Some c => Some (mkDB s d n c)
      | _, _, _, _ => None
      end
  | _ => None
  end.

End Json.
Import Json.

Arguments strict_eq : simpl never.
Arguments ToString : simpl never.
Arguments parseInt_string : simpl never.
Arguments parseInt : simpl never.
Arguments String.eqb : simpl never.
Arguments stringify : simpl never.

(** ** The server process: global store, file and clock *)

(** What [data.json] holds: no file, text that [JSON.parse] rejects, or
    a JSON document. *)
Inductive File : Type :=
| FAbsent
| FCorrupt
| FJson (j : json).

Record World : Type := mkWorld {
  db : DB;
  disk : File;
  clock : nat -> Z;
  ticks : nat
}.

(** Handlers are state transformers over [World]. *)
Definition M (A : Type) : Type := World -> A * World.

Definition ret {A : Type} (x : A) : M A := fun w => (x, w).

Definition bind {A B : Type} (c : M A) (k : A -> M B) : M B :=
  fun w => let '(x, w') := c w in k x w'.

Notation "x <- c ;; k" := (bind c (fun x => k))
  (at level 100, c at next level, right associativity).
Notation "c ;;; k" := (bind c (fun _ => k))
  (at level 100, right associativity).

Definition getDB : M DB := fun w => (db w, w).

Definition modifyDB (f : DB -> DB) : M unit :=
  fun w => (tt, mkWorld (f (db w)) (disk w) (clock w) (ticks w)).

(** [new Date()] / [Date.now()] *)
Definition Date_now : M Z :=
  fun w => (clock w (ticks w), mkWorld (db w) (disk w) (clock w) (S (ticks w))).

(** [saveDB(data)]: the whole document replaces the file. *)
Definition saveDB (data : DB) : M unit :=
  fun w => (tt, mkWorld (db w) (FJson (stringify data)) (clock w) (ticks w)).

(** [saveDB(db)] *)
Definition save : M unit := d <- getDB ;; saveDB d.

Fixpoint forEach {A : Type} (l : list A) (f : A -> M unit) : M unit :=
  match l with
  | [] => ret tt
  | x :: r => f x ;;; forEach r f
  end.

(** Setters on the store. *)
Definition set_sections (f : list DocSection -> list DocSection) (d : DB) : DB :=
  mkDB (f (sections d)) (discussions d) (notifications d) (nextId d).
Definition set_discussions (f : list Discussion -> list Discussion) (d : DB) : DB :=
  mkDB (sections d) (f (discussions d)) (notifications d) (nextId d).
Definition set_notifications (f : list Notification -> list Notification) (d : DB) : DB :=
  mkDB (sections d) (discussions d) (f (notifications d)) (nextId d).
Definition set_nextId (f : NextId -> NextId) (d : DB) : DB :=
  mkDB (sections d) (discussions d) (notifications d) (f (nextId d)).

(** [db.nextId.discussion++] and its two siblings: the value before the
    increment. *)
Definition fresh_discussion_id : M Z :=
  d <- getDB ;;
  modifyDB (set_nextId (fun c =>
    mkNextId (next_discussion c + 1) (next_reply c) (next_notification c))) ;;;
  ret (next_discussion (nextId d)).

Definition fresh_reply_id : M Z :=
  d <- getDB ;;
  modifyDB (set_nextId (fun c =>
    mkNextId (next_discussion c) (next_reply c + 1) (next_notification c))) ;;;
  ret (next_reply (nextId d)).

Definition fresh_notification_id : M Z :=
  d <- getDB ;;
  modifyDB (set_nextId (fun c =>
    mkNextId (next_discussion c) (next_reply c) (next_notification c + 1))) ;;;
  ret (next_notification (nextId d)).

(** [arr.push(x)] *)
Definition push {A : Type} (x : A) (l : list A) : list A := l ++ [x].

(** *** Responses *)

Record DiscussionView : Type := mkView {
  v_discussion : Discussion;
  v_section_title : jsval
}.

Record Stats : Type := mkStats {
  totalSections : Z;
  totalComments : Z;
  totalQuestions : Z;
  st_resolved : Z;
  st_pending : Z;
  franciscoItems : Z;
  wifeItems : Z
}.

Inductive Body : Type :=
| BSuccess
| BCreated (id : Z)
| BError (msg : string)
| BSections (l : list DocSection)
| BSection (s : DocSection)
| BViews (l : list DiscussionView)
| BDiscussions (l : list Discussion)
| BNotifications (l : list Notification)
| BStats (s : Stats).

Record Response : Type := mkResponse {
  status : Z;
  body : Body
}.

(** [res.json(b)] and [res.status(c).json(b)] *)
Definition json_ok (b : Body) : Response := mkResponse 200 b.
Definition json_status (c : Z) (b : Body) : Response := mkResponse c b.

(** *** Database file *)

(** The ten seed sections; the text of section [i] is [content i]. *)
Definition getBusinessPlanSections (content : Z -> string) : list DocSection :=
  map (fun '(i, t) => mkSection i (VStr t) 1 (VStr (content i)) None)
      [(1, "Executive Summary"); (2, "Business Model Overview");
       (3, "Market Focus"); (4, "Ownership Structure");
       (5, "Five-Year Success Metrics"); (6, "Investment Summary");
       (7, "Company Structure"); (8, "Decision-Making Framework");
       (9, "Development Approach"); (10, "Exit Strategy")].

(** [initializeDB()]: the fresh store, and the file it writes through
    [saveDB]. *)
Definition initializeDB (content : Z -> string) : DB * File :=
  let data := mkDB (getBusinessPlanSections content) [] [] (mkNextId 1 1 1) in
  (data, FJson (stringify data)).

(** [loadDB()] on the current file: the store and the file afterwards.
    [None] when the file parses to something that is not a store. *)
Definition loadDB (content : Z -> string) (f : File) : option (DB * File) :=
  match f with
  | FJson j =>
      match parse j with
      | Some d => Some (d, f)
      | None => None
      end
  | FAbsent | FCorrupt => Some (initializeDB content)
  end.

(** Process start, [let db = loadDB()], on a given file and clock. *)
Definition boot (content : Z -> string) (f : File) (clk : nat -> Z) (t : nat)
  : option World :=
  match loadDB content f with
  | Some (d, f') => Some (mkWorld d f' clk t)
  | None => None
  end.

(** *** Route handlers *)

(** [GET /api/sections] *)
Definition get_sections : M Response :=
  d <- getDB ;; ret (json_ok (BSections (sections d))).

(** [GET /api/sections/:id] *)
Definition get_section (id : string) : M Response :=
  d <- getDB ;;
  match find (fun s => eq_parsed (s_id s) (parseInt_string id)) (sections d) with
  | None => ret (json_status 404 (BError "Section not found"))
  | Some section => ret (json_ok (BSection section))
  end.

(** The three assignments of the section update. *)
Definition edit_section (title content : jsval) (now : Z) (s : DocSection) : DocSection :=
  mkSection (s_id s) title (s_level s) content (Some now).

(** [PUT /api/sections/:id] *)
Definition put_section (id : string) (title content : jsval) : M Response :=
  d <- getDB ;;
  let hit := fun s => eq_parsed (s_id s) (parseInt_string id) in
  match find hit (sections d) with
  | Some _ =>
      now <- Date_now ;;
      modifyDB (set_sections (update_first hit (edit_section title content now))) ;;;
      save ;;;
      ret (json_ok BSuccess)
  | None => ret (json_ok BSuccess)
  end.

(** [GET /api/discussions] *)
Definition section_title (d : DB) (x : Discussion) : jsval :=
  match find (fun s => id_is_ref (s_id s) (d_section_id x)) (sections d) with
  | Some section => s_title section
  | None => VNull
  end.

Definition get_discussions : M Response :=
  d <- getDB ;;
  ret (json_ok (BViews (map (fun x => mkView x (section_title d x)) (discussions d)))).

(** [GET /api/sections/:id/discussions] *)
Definition get_section_discussions (id : string) : M Response :=
  d <- getDB ;;
  ret (json_ok (BDiscussions
    (List.filter (fun x => ref_eq_parsed (d_section_id x) (parseInt_string id))
                 (discussions d)))).

(** [section_id ? parseInt(section_id) : null] *)
Definition section_ref (section_id : jsval) : sectionRef :=
  if truthy section_id
  then match parseInt section_id with
       | Some z => SId z
       | None => SNaN
       end
  else SNull.

(** [POST /api/discussions] *)
Definition post_discussion (section_id type text author : jsval) : M Response :=
  id <- fresh_discussion_id ;;
  created <- Date_now ;;
  let discussion :=
    mkDiscussion id (section_ref section_id) type text author
                 (VBool false) VNull None created [] in
  modifyDB (set_discussions (push discussion)) ;;;
  let otherUser := if strict_eq author (VStr "Francisco") then "Wife" else "Francisco" in
  nid <- fresh_notification_id ;;
  ncreated <- Date_now ;;
  modifyDB (set_notifications (push
    (mkNotification nid otherUser type
       (ToString author ++ " added a " ++ ToString type)
       (d_id discussion) false ncreated))) ;;;
  save ;;;
  ret (json_ok (BCreated (d_id discussion))).

(** [d => d.id === parseInt(req.params.id)] *)
Definition has_id (id : string) (x : Discussion) : bool :=
  eq_parsed (d_id x) (parseInt_string id).

(** [discussion.replies.push(reply)] *)
Definition with_reply (reply : Reply) (x : Discussion) : Discussion :=
  mkDiscussion (d_id x) (d_section_id x) (d_type x) (d_text x) (d_author x)
               (d_resolved x) (d_resolved_by x) (d_resolved_at x)
               (d_created_at x) (push reply (d_replies x)).

(** [['Francisco', 'Wife'].filter(u => u !== author)] *)
Definition reply_recipients (author : jsval) : list string :=
  List.filter (fun u => negb (strict_eq (VStr u) author)) ["Francisco"; "Wife"].

Arguments reply_recipients : simpl never.

(** The body of the [forEach] of the reply handler. *)
Definition notify_reply (author : jsval) (discussion : Discussion) (user : string)
  : M unit :=
  nid <- fresh_notification_id ;;
  ncreated <- Date_now ;;
  modifyDB (set_notifications (push
    (mkNotification nid user (VStr "reply")
       (ToString author ++ " replied to a discussion")
       (d_id discussion) false ncreated))).

(** [POST /api/discussions/:id/replies] *)
Definition post_reply (id : string) (text author : jsval) : M Response :=
  d <- getDB ;;
  match find (has_id id) (discussions d) with
  | Some discussion =>
      rid <- fresh_reply_id ;;
      created <- Date_now ;;
      let reply := mkReply rid text author created in
      modifyDB (set_discussions (update_first (has_id id) (with_reply reply))) ;;;
      forEach (reply_recipients author) (notify_reply author discussion) ;;;
      save ;;;
      ret (json_ok (BCreated (r_id reply)))
  | None => ret (json_status 404 (BError "Discussion not found"))
  end.

(** The three assignments of the resolve handler. *)
Definition set_resolution (resolved resolved_by : jsval) (resolved_at : option Z)
    (x : Discussion) : Discussion :=
  mkDiscussion (d_id x) (d_section_id x) (d_type x) (d_text x) (d_author x)
               resolved
               (if truthy resolved then resolved_by else VNull)
               resolved_at
               (d_created_at x) (d_replies x).

(** [PATCH /api/discussions/:id/resolve] *)
Definition patch_resolve (id : string) (resolved resolved_by : jsval) : M Response :=
  d <- getDB ;;
  match find (has_id id) (discussions d) with
  | Some _ =>
      resolved_at <- (if truthy resolved
                      then (now <- Date_now ;; ret (Some now))
                      else ret None) ;;
      modifyDB (set_discussions
        (update_first (has_id id) (set_resolution resolved resolved_by resolved_at))) ;;;
      save ;;;
      ret (json_ok BSuccess)
  | None => ret (json_ok BSuccess)
  end.

(** [DELETE /api/discussions/:id] *)
Definition delete_discussion (id : string) : M Response :=
  modifyDB (set_discussions (List.filter (fun x => negb (has_id id x)))) ;;;
  save ;;;
  ret (json_ok BSuccess).

(** [Array.prototype.sort(cmp)]. The language requires the sort to be
    stable, and for a comparator that is a consistent ordering this fixes
    the result; it is computed here by stable insertion. *)
Fixpoint sort_insert {A : Type} (cmp : A -> A -> Z) (x : A) (l : list A) : list A :=
  match l with
  | [] => [x]
  | y :: r => if Z.leb (cmp x y) 0 then x :: l else y :: sort_insert cmp x r
  end.

Fixpoint Array_sort {A : Type} (cmp : A -> A -> Z) (l : list A) : list A :=
  match l with
  | [] => []
  | x :: r => sort_insert cmp x (Array_sort cmp r)
  end.

(** [(a, b) => new Date(b.created_at) - new Date(a.created_at)] *)
Definition newest_first (a b : Notification) : Z := n_created_at b - n_created_at a.

(** [n => n.user === user] *)
Definition for_user (user : string) (n : Notification) : bool :=
  String.eqb (n_user n) user.

(** [.filter(n => n.user === user).sort(..).slice(0, 50)] *)
Definition list_for_user (user : string) (ns : list Notification) : list Notification :=
  firstn 50 (Array_sort newest_first (List.filter (for_user user) ns)).

(** [GET /api/notifications/:user] *)
Definition get_notifications (user : string) : M Response :=
  d <- getDB ;;
  ret (json_ok (BNotifications (list_for_user user (notifications d)))).

Definition mark_read (n : Notification) : Notification :=
  mkNotification (n_id n) (n_user n) (n_type n) (n_message n)
                 (n_discussion_id n) true (n_created_at n).

(** [PATCH /api/notifications/:id/read] *)
Definition patch_notification_read (id : string) : M Response :=
  d <- getDB ;;
  let hit := fun n => eq_parsed (n_id n) (parseInt_string id) in
  match find hit (notifications d) with
  | Some _ =>
      modifyDB (set_notifications (update_first hit mark_read)) ;;;
      save ;;;
      ret (json_ok BSuccess)
  | None => ret (json_ok BSuccess)
  end.

(** [PATCH /api/notifications/:user/read-all] *)
Definition patch_read_all (user : string) : M Response :=
  modifyDB (set_notifications
    (map (fun n => if for_user user n then mark_read n else n))) ;;;
  save ;;;
  ret (json_ok BSuccess).

Definition count {A : Type} (p : A -> bool) (l : list A) : Z :=
  Z.of_nat (length (List.filter p l)).

(** [GET /api/stats] *)
Definition get_stats : M Response :=
  d <- getDB ;;
  let ds := discussions d in
  ret (json_ok (BStats
    (mkStats (Z.of_nat (length (sections d)))
             (count (fun x => strict_eq (d_type x) (VStr "comment")) ds)
             (count (fun x => strict_eq (d_type x) (VStr "question")) ds)
             (count (fun x => truthy (d_resolved x)) ds)
             (count (fun x => negb (truthy (d_resolved x))) ds)
             (count (fun x => strict_eq (d_author x) (VStr "Francisco")) ds)
             (count (fun x => strict_eq (d_author x) (VStr "Wife")) ds)))).

(** *** Requests and runs of the server *)

Inductive Request : Type :=
| GetSections
| GetSection (id : string)
| PutSection (id : string) (title content : jsval)
| GetDiscussions
| GetSectionDiscussions (id : string)
| PostDiscussion (section_id type text author : jsval)
| PostReply (id : string) (text author : jsval)
| PatchResolve (id : string) (resolved resolved_by : jsval)
| DeleteDiscussion (id : string)
| GetNotifications (user : string)
| PatchNotificationRead (id : string)
| PatchReadAll (user : string)
| GetStats.

Definition handle (r : Request) : M Response :=
  match r with
  | GetSections => get_sections
  | GetSection id => get_section id
  | PutSection id title content => put_section id title content
  | GetDiscussions => get_discussions
  | GetSectionDiscussions id => get_section_discussions id
  | PostDiscussion section_id type text author =>
      post_discussion section_id type text author
  | PostReply id text author => post_reply id text author
  | PatchResolve id resolved resolved_by => patch_resolve id resolved resolved_by
  | DeleteDiscussion id => delete_discussion id
  | GetNotifications user => get_notifications user
  | PatchNotificationRead id => patch_notification_read id
  | PatchReadAll user => patch_read_all user
  | GetStats => get_stats
  end.

(** What happens to a server over time: it serves a request, or the
    process is stopped and started again on the file it left. *)
Inductive Event : Type :=
| Call (r : Request)
| Restart.

Definition restart (content : Z -> string) (w : World) : option World :=
  boot content (disk w) (clock w) (ticks w).

(** The log of a run pairs every request with its response. *)
Fixpoint run (content : Z -> string) (evs : list Event) (w : World)
  : option (list (Request * Response) * World) :=
  match evs with
  | [] => Some ([], w)
  | Call r :: rest =>
      let '(resp, w') := handle r w in
      match run content rest w' with
      | Some (log, w'') => Some ((r, resp) :: log, w'')
      | None => None
      end
  | Restart :: rest =>
      match restart content w with
      | Some w' => run content rest w'
      | None => None
      end
  end.

(** The states a server can be in: started on some file, then driven by
    events. *)
Inductive reachable (content : Z -> string) : World -> Prop :=
| reach_boot f clk t w :
    boot content f clk t = Some w -> reachable content w
| reach_call w r :
    reachable content w -> reachable content (snd (handle r w))
| reach_restart w w' :
    reachable content w -> restart content w = Some w' -> reachable content w'.

(** The same, for a server first started with no usable [data.json]. *)
Inductive reachable_fresh (content : Z -> string) : World -> Prop :=
| fresh_boot f clk t w :
    f = FAbsent \/ f = FCorrupt ->
    boot content f clk t = Some w -> reachable_fresh content w
| fresh_call w r :
    reachable_fresh content w -> reachable_fresh content (snd (handle r w))
| fresh_restart w w' :
    reachable_fresh content w -> restart content w = Some w' ->
    reachable_fresh content w'.

(** ** Sample worlds, used to run the handlers on concrete inputs *)

Definition no_text : Z -> string := fun _ => "".

(** A clock that advances one millisecond per reading, from
    2026-01-01T00:00:00.000Z. *)
Definition sample_clock : nat -> Z := fun n => 1767225600000 + Z.of_nat n.

(** A clock that stands still within the millisecond. *)
Definition frozen_clock : nat -> Z := fun _ => 1767225600000.

(** The server just installed: no [data.json] yet. *)
Definition fresh_world (clk : nat -> Z) : World :=
  let '(d, f) := initializeDB no_text in mkWorld d f clk 0.

(** ** Vocabulary of the specification *)

(** The two reviewers. *)
Definition known_user (v : jsval) : Prop := v = VStr "Francisco" \/ v = VStr "Wife".

(** The two kinds of discussion. *)
Definition known_type (v : jsval) : Prop := v = VStr "comment" \/ v = VStr "question".

(** A text that is a string and is empty once trimmed. *)
Definition empty_after_trim (v : jsval) : Prop := exists s, v = VStr s /\ blank s = true.

(** A creation request that breaks one of the three constraints on
    [type], [text] and [author]. *)
Definition invalid_creation (type text author : jsval) : Prop :=
  ~ known_type type \/ empty_after_trim text \/ ~ known_user author.

(** A response that reports a client error (4xx). *)
Definition client_error (r : Response) : Prop := 400 <= status r < 500.

(** The notifications a reply pushes, one per recipient, numbered from
    [nid] and stamped by successive clock readings from [t]. *)
Fixpoint reply_notifications (users : list string) (author : jsval) (did nid : Z)
    (clk : nat -> Z) (t : nat) : list Notification :=
  match users with
  | [] => []
  | u :: r =>
      mkNotification nid u (VStr "reply")
        (ToString author ++ " replied to a discussion") did false (clk t)
      :: reply_notifications r author did (nid + 1) clk (S t)
  end.

(** The statement that resolving an id no discussion has is answered
    with 404 and changes nothing. *)
Definition resolve_missing_is_404 (w : World) (id : string) (resolved resolved_by : jsval)
  : Prop :=
  find (has_id id) (discussions (db w)) = None ->
  status (fst (patch_resolve id resolved resolved_by w)) = 404
  /\ snd (patch_resolve id resolved resolved_by w) = w.

(** The statement that an invalid creation request is answered with a
    client error and adds neither a discussion nor a notification. *)
Definition creation_rejected (w : World) (section_id type text author : jsval) : Prop :=
  invalid_creation type text author ->
  let r := post_discussion section_id type text author w in
  client_error (fst r)
  /\ discussions (db (snd r)) = discussions (db w)
  /\ notifications (db (snd r)) = notifications (db w).

(** Notifications stamped with the instant [t]. *)
Definition at_time (t : Z) (n : Notification) : bool := Z.eqb (n_created_at n) t.

(** Most recent first. *)
Definition newest_to_oldest (l : list Notification) : Prop :=
  StronglySorted (fun a b => n_created_at b <= n_created_at a) l.

(** Among notifications of equal [created_at], the one pushed later onto
    [store] comes first in [result]. *)
Definition later_inserted_first (store result : list Notification) : Prop :=
  forall (i j : nat) (a b : Notification),
    (i < j)%nat ->
    nth_error result i = Some a -> nth_error result j = Some b ->
    n_created_at a = n_created_at b ->
    exists p q : nat,
      nth_error store p = Some a /\ nth_error store q = Some b /\ (q < p)%nat.

(** The statement about the listing of a user's notifications, with the
    tie rule that puts the later insertion first. *)
Definition listing_later_first (user : string) (store : list Notification) : Prop :=
  let r := list_for_user user store in
  (length r <= 50)%nat
  /\ Forall (fun n => n_user n = user) r
  /\ newest_to_oldest r
  /\ later_inserted_first store r.

(** Francisco posts two comments within the same millisecond on a fresh
    install. *)
Definition two_comments_world : World :=
  let w1 := snd (post_discussion (VNum 1) (VStr "comment") (VStr "First") (VStr "Francisco")
                   (fresh_world frozen_clock)) in
  snd (post_discussion (VNum 1) (VStr "comment") (VStr "Second") (VStr "Francisco") w1).

(** What a store becomes when written and read back: a [NaN]
    [section_id] comes back as [null]. *)
Definition normalize_ref (r : sectionRef) : sectionRef :=
  match r with
  | SNaN => SNull
  | SNull | SId _ => r
  end.

Definition normalize_discussion (x : Discussion) : Discussion :=
  mkDiscussion (d_id x) (normalize_ref (d_section_id x)) (d_type x) (d_text x)
               (d_author x) (d_resolved x) (d_resolved_by x) (d_resolved_at x)
               (d_created_at x) (d_replies x).

Definition normalize (d : DB) : DB := set_discussions (map normalize_discussion) d.

(** The schema of the store: [section_id] is an integer or [null]. *)
Definition conforms (d : DB) : Prop :=
  Forall (fun x => d_section_id x <> SNaN) (discussions d).

(** Reading a property off a list of optional properties. *)
Fixpoint getf (k : string) (fields : list (string * option json)) : option json :=
  match fields with
  | [] => None
  | (k', v) :: r =>
      match getf k r with
      | Some x => Some x
      | None => if String.eqb k k' then v else None
      end
  end.

(** A discussion that is not resolved carries no attribution. *)
Definition unresolved_is_clear (x : Discussion) : Prop :=
  truthy (d_resolved x) = false -> d_resolved_by x = VNull /\ d_resolved_at x = None.

Definition resolution_invariant (d : DB) : Prop :=
  Forall unresolved_is_clear (discussions d).

(** The file holds a document that reads back as the store in memory. *)
Definition loadable (w : World) : Prop :=
  exists j, disk w = FJson j /\ parse j = Some (normalize (db w)).

(** The ids that the creation requests of a log were answered with, in
    the order of the requests. *)
Definition created_ids (log : list (Request * Response)) : list Z :=
  flat_map (fun '(req, resp) =>
              match req, body resp with
              | PostDiscussion _ _ _ _, BCreated id => [id]
              | _, _ => []
              end) log.

(** A short session on a fresh install: Francisco asks a question about
    section 3, Wife replies and resolves it, Francisco reopens it, the
    server is restarted. *)
Definition session_events : list Event :=
  [Call (PostDiscussion (VNum 3) (VStr "question") (VStr "Which market?") (VStr "Francisco"));
   Call (PostReply "1" (VStr "Small businesses") (VStr "Wife"));
   Call (PatchResolve "1" (VBool true) (VStr "Wife"));
   Call (PatchResolve "1" (VBool false) (VStr "Francisco"));
   Restart].

Definition session_world : World :=
  match run no_text session_events (fresh_world sample_clock) with
  | Some (_, w) => w
  | None => fresh_world sample_clock
  end.

(** A creation whose [section_id] is not a number. *)
Definition stray_section_world : World :=
  snd (post_discussion (VStr "intro") (VStr "comment") (VStr "Hello") (VStr "Wife")
         (fresh_world sample_clock)).

(** Every stored discussion has an id below the discussion counter. *)
Definition ids_below_counter (d : DB) : Prop :=
  Forall (fun x => d_id x < next_discussion (nextId d)) (discussions d).

(** ** Authentication, sessions over the server clock, the security log *)

(** [a || b] *)
Definition js_or (a b : jsval) : jsval := if truthy a then a else b.

(** What [logSecurityEvent] reads of a request: [req.ip],
    [req.connection.remoteAddress] and [req.headers['user-agent']]. *)
Record ClientInfo : Type := mkClient {
  c_ip : jsval;
  c_remoteAddress : jsval;
  c_userAgent : jsval
}.

(** An entry of [securityLog]; [e_message] is [details.message]. *)
Record SecurityEvent : Type := mkEvent {
  e_timestamp : Z;
  e_type : string;
  e_message : string;
  e_ip : jsval;
  e_userAgent : jsval
}.

Definition MAX_LOG_SIZE : nat := 1000.

(** [logSecurityEvent(type, details, req)] on the log, with the reading
    of the clock: [unshift], then [pop] when the log is over its size. *)
Definition logSecurityEvent (type message : string) (req : ClientInfo) (now : Z)
    (log : list SecurityEvent) : list SecurityEvent :=
  let event :=
    mkEvent now type message
            (js_or (c_ip req) (js_or (c_remoteAddress req) (VStr "unknown")))
            (js_or (c_userAgent req) (VStr "unknown")) in
  let log' := event :: log in
  if Nat.ltb MAX_LOG_SIZE (length log') then removelast log' else log'.

(** [crypto.timingSafeEqual(a, b)] on buffers of equal length: the
    differences of all the bytes are accumulated, and compared with zero
    at the end. *)
Fixpoint byte_diff (a b : string) (acc : N) : N :=
  match a, b with
  | String x a', String y b' =>
      byte_diff a' b' (N.lor acc (N.lxor (N_of_ascii x) (N_of_ascii y)))
  | _, _ => acc
  end.

Definition timingSafeEqual (a b : string) : bool := N.eqb (byte_diff a b 0%N) 0%N.

(** [secureCompare(input, secret)] *)
Definition secureCompare (input secret : jsval) : bool :=
  match input, secret with
  | VStr i, VStr s =>
      if negb (Nat.eqb (String.length i) (String.length s))
      then (let _ := timingSafeEqual i i in false)
      else timingSafeEqual i s
  | _, _ => false
  end.

(** [process.env.APP_PASSWORD || 'family2026'] *)
Definition APP_PASSWORD (env : option string) : string :=
  match env with
  | Some s => if String.eqb s "" then "family2026" else s
  | None => "family2026"
  end.

(** The whole server: the store with its file and clock, the session
    map, the security log, the source of random tokens (the [n]-th call of
    [crypto.randomBytes(32).toString('hex')] gives [sv_random n]) and the
    environment variable [APP_PASSWORD]. *)
Record Server : Type := mkServer {
  sv_world : World;
  sv_sessions : gmap string Z;
  sv_securityLog : list SecurityEvent;
  sv_random : nat -> string;
  sv_draws : nat;
  sv_env_password : option string
}.

Definition with_world (w : World) (s : Server) : Server :=
  mkServer w (sv_sessions s) (sv_securityLog s) (sv_random s) (sv_draws s)
           (sv_env_password s).

Definition with_sessions (ss : gmap string Z) (s : Server) : Server :=
  mkServer (sv_world s) ss (sv_securityLog s) (sv_random s) (sv_draws s)
           (sv_env_password s).

Definition with_securityLog (l : list SecurityEvent) (s : Server) : Server :=
  mkServer (sv_world s) (sv_sessions s) l (sv_random s) (sv_draws s)
           (sv_env_password s).

Module Auth.

(** [Date.now()] on the server's clock. *)
Definition now (s : Server) : Z * Server :=
  let '(t, w) := Date_now (sv_world s) in (t, with_world w s).

(** [generateToken()] *)
Definition generateToken (s : Server) : string * Server :=
  (sv_random s (sv_draws s),
   mkServer (sv_world s) (sv_sessions s) (sv_securityLog s) (sv_random s)
            (S (sv_draws s)) (sv_env_password s)).

(** [createSession()] *)
Definition createSession (s : Server) : string * Server :=
  let '(token, s1) := generateToken s in
  let '(t, s2) := now s1 in
  (token, with_sessions (<[token := t + Session.WEEK_MS]> (sv_sessions s2)) s2).

(** [validateSession(token)]; the clock is read only when the token is
    on record. *)
Definition validateSession (token : jsval) (s : Server) : bool * Server :=
  if negb (truthy token) then (false, s)
  else match Session.sessions_get token (sv_sessions s) with
       | None => (false, s)
       | Some expiresAt =>
           let '(t, s1) := now s in
           if Z.ltb expiresAt t
           then (false, with_sessions (Session.sessions_delete token (sv_sessions s1)) s1)
           else (true, s1)
       end.

(** [logSecurityEvent] on the server. *)
Definition log_event (type message : string) (req : ClientInfo) (s : Server) : Server :=
  let '(t, s1) := now s in
  with_securityLog (logSecurityEvent type message req t (sv_securityLog s1)) s1.

End Auth.

(** *** Requests to the application *)

(** The handler Express dispatches a request to, once the middleware has
    let it through. *)
Inductive Route : Type :=
| RLogin (password : jsval)
| RVerify
| RLogout
| RSecurityLog
| RApi (r : Request)
| RIndex
| ROther.

(** A request: [req.path], the [auth_token] cookie, the [x-auth-token]
    header, the client, and the route its method and path select. *)
Record AppRequest : Type := mkAppRequest {
  rq_path : string;
  rq_cookie : jsval;
  rq_header : jsval;
  rq_client : ClientInfo;
  rq_route : Route
}.

Inductive Payload : Type :=
| PError (msg : string)
| PLogin (token : string)
| PValid (valid : bool)
| PSuccess
| PEvents (l : list SecurityEvent).

(** [res.cookie('auth_token', ..)], [res.clearCookie('auth_token', ..)]
    or neither. *)
Inductive CookieOp : Type :=
| CookieKeep
| CookieSet (token : string)
| CookieClear.

Inductive Answer : Type :=
| AApi (r : Response)
| AJson (code : Z) (p : Payload) (c : CookieOp)
| AFile (name : string)
| AStatic.

(** The three paths that need no session. *)
Definition exempt (path : string) : bool :=
  String.eqb path "/login" || String.eqb path "/api/login"
  || String.eqb path "/api/verify".

(** [requireAuth(req, res, next)] *)
Definition requireAuth (req : AppRequest) (next : Server -> Answer * Server)
    (s : Server) : Answer * Server :=
  if exempt (rq_path req) then next s
  else
    let token := js_or (rq_cookie req) (rq_header req) in
    let '(ok, s1) := Auth.validateSession token s in
    if negb ok
    then if String.prefix "/api/" (rq_path req)
         then (AJson 401 (PError "Unauthorized") CookieKeep, s1)
         else (AFile "login.html", s1)
    else next s1.

(** [POST /api/login] *)
Definition login (req : AppRequest) (password : jsval) (s : Server) : Answer * Server :=
  if secureCompare (js_or password (VStr "")) (VStr (APP_PASSWORD (sv_env_password s)))
  then
    let '(token, s1) := Auth.createSession s in
    let s2 := Auth.log_event "LOGIN_SUCCESS" "User logged in successfully"
                             (rq_client req) s1 in
    (AJson 200 (PLogin token) (CookieSet token), s2)
  else
    let s1 := Auth.log_event "LOGIN_FAILED" "Invalid password attempt"
                             (rq_client req) s in
    (AJson 401 (PError "Invalid password") CookieKeep, s1).

(** [GET /api/verify] *)
Definition verify (req : AppRequest) (s : Server) : Answer * Server :=
  let token := js_or (rq_header req) (rq_cookie req) in
  let '(ok, s1) := Auth.validateSession token s in
  if ok then (AJson 200 (PValid true) CookieKeep, s1)
  else (AJson 401 (PValid false) CookieKeep, s1).

(** [POST /api/logout] *)
Definition logout (req : AppRequest) (s : Server) : Answer * Server :=
  let token := js_or (rq_header req) (rq_cookie req) in
  (AJson 200 PSuccess CookieClear,
   with_sessions (Session.logout token (sv_sessions s)) s).

(** [GET /api/security-log] *)
Definition security_log (s : Server) : Answer * Server :=
  (AJson 200 (PEvents (firstn 50 (sv_securityLog s))) CookieKeep, s).

(** A store handler run on the server. *)
Definition api (r : Request) (s : Server) : Answer * Server :=
  let '(resp, w) := handle r (sv_world s) in (AApi resp, with_world w s).

Definition dispatch (req : AppRequest) (s : Server) : Answer * Server :=
  match rq_route req with
  | RLogin password => login req password s
  | RVerify => verify req s
  | RLogout => logout req s
  | RSecurityLog => security_log s
  | RApi r => api r s
  | RIndex => (AFile "index.html", s)
  | ROther => (AStatic, s)
  end.

(** A request that has passed the rate limiters and the body parser:
    the session gate, then the route. *)
Definition serve (req : AppRequest) (s : Server) : Answer * Server :=
  requireAuth req (dispatch req) s.

(** ** The client's time labels *)

(** How old a timestamp is shown to be. *)
Inductive Age : Type :=
| JustNow
| MinutesAgo (n : Z)
| HoursAgo (n : Z)
| DaysAgo (n : Z)
| OnDate (date : Z).

(** The case analysis of [formatTime] on [diff = now - date]. *)
Definition age (now date : Z) : Age :=
  let diff := now - date in
  if Z.ltb diff 60000 then JustNow
  else if Z.ltb diff 3600000 then MinutesAgo (diff / 60000)
  else if Z.ltb diff 86400000 then HoursAgo (diff / 3600000)
  else if Z.ltb diff 604800000 then DaysAgo (diff / 86400000)
  else OnDate date.

(** [formatTime(dateStr)] at the instant [now], with
    [Date.prototype.toLocaleDateString] as a parameter. *)
Definition formatTime (toLocaleDateString : Z -> string) (now date : Z) : string :=
  match age now date with
  | JustNow => "Just now"
  | MinutesAgo n => pretty n ++ "m ago"
  | HoursAgo n => pretty n ++ "h ago"
  | DaysAgo n => pretty n ++ "d ago"
  | OnDate d => toLocaleDateString d
  end.

(** ** More vocabulary *)


(** All reply ids of a store, thread by thread. *)
Definition reply_ids (d : DB) : list Z :=
  flat_map (fun x => map r_id (d_replies x)) (discussions d).

(** A list of ids that are pairwise distinct and all below the counter
    [c]. *)
Definition fresh_below (c : Z) (l : list Z) : Prop :=
  NoDup l /\ Forall (fun i => i < c) l.

(** The ids of discussions, of replies (across all threads) and of
    notifications are pairwise distinct and below their counters. *)
Definition ids_well_formed (d : DB) : Prop :=
  fresh_below (next_discussion (nextId d)) (map d_id (discussions d))
  /\ fresh_below (next_reply (nextId d)) (reply_ids d)
  /\ fresh_below (next_notification (nextId d)) (map n_id (notifications d)).

(** The counters of [GET /api/stats] on a store. *)
Definition stats_of (w : World) : option Stats :=
  match body (fst (get_stats w)) with
  | BStats s => Some s
  | _ => None
  end.

(** A server on a fresh install with no session, for running examples:
    the password is the default one and the first token is sixty-four
    hexadecimal digits. *)
Definition sample_token : string :=
  "9f86d081884c7d659a2feaa0c55ad015a3bf4f1b2b0b822cd15d6c15b0f00a08".

Definition sample_server : Server :=
  mkServer (fresh_world sample_clock) ∅ [] (fun _ => sample_token) 0 None.

Definition sample_client : ClientInfo :=
  mkClient (VStr "192.168.1.20") VUndefined (VStr "Safari").

(** The store and its file are the same in two states of the server. *)
Definition same_store (s s' : Server) : Prop :=
  db (sv_world s') = db (sv_world s) /\ disk (sv_world s') = disk (sv_world s).

(** The reading the server's clock gives next. *)
Definition next_reading (s : Server) : Z := clock (sv_world s) (ticks (sv_world s)).

(** The server after one reading of its clock. *)
Definition after_reading (s : Server) : Server := snd (Auth.now s).

(** A sequence of requests served one after the other. *)
Fixpoint serve_all (reqs : list AppRequest) (s : Server) : list Answer * Server :=
  match reqs with
  | [] => ([], s)
  | req :: rest =>
      let '(a, s1) := serve req s in
      let '(answers, s2) := serve_all rest s1 in
      (a :: answers, s2)
  end.

(** The answer to a successful login. *)
Definition is_login_success (a : Answer) : bool :=
  match a with
  | AJson _ (PLogin _) _ => true
  | _ => false
  end.

(** Two discussions that differ at most in their resolution fields. *)
Definition same_but_resolution (a b : Discussion) : Prop :=
  d_id b = d_id a /\ d_section_id b = d_section_id a /\ d_type b = d_type a
  /\ d_text b = d_text a /\ d_author b = d_author a
  /\ d_created_at b = d_created_at a /\ d_replies b = d_replies a.

(** [s => s.id === k] for a number [k]. *)
Definition section_has_id (k : Z) (s : DocSection) : bool := Z.eqb (s_id s) k.


(** * Properties *)

Ltac run_handler :=
  unfold post_discussion, post_reply, patch_resolve, delete_discussion,
    put_section, get_section, get_sections, get_discussions,
    get_section_discussions, get_notifications, patch_notification_read,
    patch_read_all, get_stats, save, saveDB, fresh_discussion_id,
    fresh_reply_id, fresh_notification_id, Date_now, modifyDB, getDB,
    bind, ret, json_ok, json_status; simpl.

Example parseInt_examples :
  parseInt_string "42" = Some 42
  /\ parseInt_string "  -17px" = Some (-17)
  /\ parseInt_string "0x1F" = Some 31
  /\ parseInt_string "abc" = None
  /\ parseInt_string "" = None
  /\ parseInt (VNum 305) = Some 305
  /\ parseInt (VBool true) = None.
Proof. repeat split; vm_compute; reflexivity. Qed.

(** *** Session store *)

Lemma validateSession_missing now token ss :
  truthy token = false -> Session.validateSession now token ss = (false, ss).
Proof. intros H. unfold Session.validateSession. now rewrite H. Qed.

Lemma validateSession_unknown now token ss :
  Session.sessions_get token ss = None ->
  Session.validateSession now token ss = (false, ss).
Proof.
  intros H. unfold Session.validateSession. rewrite H.
  now destruct (negb (truthy token)).
Qed.

Lemma validateSession_expired now token ss e :
  truthy token = true ->
  Session.sessions_get token ss = Some e -> e < now ->
  Session.validateSession now token ss = (false, Session.sessions_delete token ss).
Proof.
  intros Ht H Hlt. unfold Session.validateSession. rewrite Ht, H. simpl.
  apply Z.ltb_lt in Hlt. now rewrite Hlt.
Qed.

Lemma sessions_get_delete token ss :
  Session.sessions_get token (Session.sessions_delete token ss) = None.
Proof. destruct token; simpl; try reflexivity. apply lookup_delete_eq. Qed.

(** C8. [validateSession] answers [false] for a missing token (one that
    is falsy: [undefined], [null], the empty string), for a token that
    the session map does not record, and for a token recorded with an
    expiry earlier than the current time; in the last case the lookup
    itself deletes the entry from the map and leaves every other entry
    alone, and in the first two the map is untouched. *)
Theorem validateSession_fails_closed (now : Z) (token : jsval) (ss : Session.sessions)
  (H : truthy token = false
       \/ Session.sessions_get token ss = None
       \/ exists e, Session.sessions_get token ss = Some e /\ e < now) :
  fst (Session.validateSession now token ss) = false
  /\ (truthy token = false \/ Session.sessions_get token ss = None ->
      snd (Session.validateSession now token ss) = ss)
  /\ (forall t e, token = VStr t -> t <> "" -> ss !! t = Some e -> e < now ->
      snd (Session.validateSession now token ss) = delete t ss
      /\ snd (Session.validateSession now token ss) !! t = None
      /\ forall t', t' <> t ->
           snd (Session.validateSession now token ss) !! t' = ss !! t').
Proof.
  split; [| split].
  - destruct H as [H | [H | [e [H Hlt]]]].
    + now rewrite validateSession_missing.
    + now rewrite validateSession_unknown.
    + destruct (truthy token) eqn:Ht.
      * now rewrite (validateSession_expired now token ss e).
      * now rewrite validateSession_missing.
  - intros [Hm | Hu].
    + now rewrite validateSession_missing.
    + now rewrite validateSession_unknown.
  - intros t e -> Hne Hget Hlt.
    assert (Ht : truthy (VStr t) = true).
    { simpl. destruct (String.eqb_spec t ""); [contradiction | reflexivity]. }
    rewrite (validateSession_expired now (VStr t) ss e Ht Hget Hlt). simpl.
    split; [reflexivity | split].
    + apply lookup_delete_eq.
    + intros t' Hne'. now apply lookup_delete_ne.
Qed.

Lemma validateSession_fails_closed_witness :
  fst (Session.validateSession 10 (VStr "tok") {[ "tok" := 5 ]}) = false
  /\ snd (Session.validateSession 10 (VStr "tok") {[ "tok" := 5 ]}) !! "tok" = None.
Proof.
  pose proof (validateSession_fails_closed 10 (VStr "tok") {[ "tok" := 5 ]}) as W.
  destruct W as [W1 [_ W3]].
  - right; right. exists 5. split; [reflexivity | lia].
  - split; [exact W1 |].
    destruct (W3 "tok" 5) as [_ [W _]]; [reflexivity | discriminate | reflexivity | lia | exact W].
Defined.

(** A session is good for seven days from its creation, and not after
    a logout. *)
Lemma createSession_then_validate token created now (ss : Session.sessions) :
  token <> "" -> now <= created + Session.WEEK_MS ->
  fst (Session.validateSession now (VStr token)
         (snd (Session.createSession token created ss))) = true.
Proof.
  intros Hne Hle. unfold Session.createSession, Session.validateSession. simpl.
  destruct (String.eqb_spec token ""); [contradiction |]. simpl.
  rewrite lookup_insert_eq.
  destruct (Z.ltb_spec (created + Session.WEEK_MS) now); [lia | reflexivity].
Qed.

Lemma logout_then_validate token now (ss : Session.sessions) :
  fst (Session.validateSession now token (Session.logout token ss)) = false.
Proof.
  unfold Session.logout. destruct (truthy token) eqn:Ht.
  - rewrite validateSession_unknown; [reflexivity | apply sessions_get_delete].
  - now rewrite validateSession_missing.
Qed.

(** A token whose expiry is the current instant, or later, is accepted
    and the map is left as it is. *)
Lemma validateSession_live now t e (ss : Session.sessions) :
  t <> "" -> ss !! t = Some e -> now <= e ->
  Session.validateSession now (VStr t) ss = (true, ss).
Proof.
  intros Hne Hget Hle. unfold Session.validateSession. simpl.
  destruct (String.eqb_spec t ""); [contradiction |]. simpl. rewrite Hget.
  destruct (Z.ltb_spec e now); [lia | reflexivity].
Qed.

(** *** What each mutating handler does, in closed form *)

Lemma post_discussion_eq sid ty tx au w :
  post_discussion sid ty tx au w =
  let d := db w in
  let id := next_discussion (nextId d) in
  let nid := next_notification (nextId d) in
  let disc := mkDiscussion id (section_ref sid) ty tx au (VBool false) VNull None
                           (clock w (ticks w)) [] in
  let notif := mkNotification nid
                 (if strict_eq au (VStr "Francisco") then "Wife" else "Francisco")
                 ty (ToString au ++ " added a " ++ ToString ty) id false
                 (clock w (S (ticks w))) in
  let d' := mkDB (sections d) (discussions d ++ [disc]) (notifications d ++ [notif])
                 (mkNextId (id + 1) (next_reply (nextId d)) (nid + 1)) in
  (json_ok (BCreated id), mkWorld d' (FJson (stringify d')) (clock w) (S (S (ticks w)))).
Proof. reflexivity. Qed.

Lemma forEach_notify users au disc : forall s ds ns a b c f clk t,
  forEach users (notify_reply au disc)
    (mkWorld (mkDB s ds ns (mkNextId a b c)) f clk t)
  = (tt, mkWorld (mkDB s ds (ns ++ reply_notifications users au (d_id disc) c clk t)
                       (mkNextId a b (c + Z.of_nat (length users))))
                 f clk (t + length users)%nat).
Proof.
  induction users as [| u r IH]; intros; simpl.
  - unfold ret. now rewrite app_nil_r, Z.add_0_r, Nat.add_0_r.
  - unfold bind at 1. unfold notify_reply at 1. run_handler.
    unfold push, set_notifications; simpl.
    rewrite IH. rewrite <- app_assoc.
    cbn [length reply_notifications app].
    rewrite Nat2Z.inj_succ, <- Nat.add_succ_comm.
    replace (c + Z.succ (Z.of_nat (length r))) with (c + 1 + Z.of_nat (length r)) by lia.
    reflexivity.
Qed.

Lemma post_reply_missing id tx au w :
  find (has_id id) (discussions (db w)) = None ->
  post_reply id tx au w = (json_status 404 (BError "Discussion not found"), w).
Proof.
  intros H. unfold post_reply, bind, getDB. now rewrite H.
Qed.

Lemma post_reply_found id tx au w disc :
  find (has_id id) (discussions (db w)) = Some disc ->
  post_reply id tx au w =
  let d := db w in
  let rid := next_reply (nextId d) in
  let reply := mkReply rid tx au (clock w (ticks w)) in
  let users := reply_recipients au in
  let d' := mkDB (sections d)
                 (update_first (has_id id) (with_reply reply) (discussions d))
                 (notifications d
                  ++ reply_notifications users au (d_id disc)
                       (next_notification (nextId d)) (clock w) (S (ticks w)))
                 (mkNextId (next_discussion (nextId d)) (rid + 1)
                           (next_notification (nextId d) + Z.of_nat (length users))) in
  (json_ok (BCreated rid),
   mkWorld d' (FJson (stringify d')) (clock w) (S (ticks w) + length users)%nat).
Proof.
  intros H. destruct w as [[s ds ns [a b c]] f clk t]. simpl in *.
  unfold post_reply, bind, getDB, fresh_reply_id, Date_now, modifyDB, ret,
    save, saveDB. simpl.
  rewrite H. unfold set_discussions, set_nextId. simpl.
  rewrite forEach_notify. reflexivity.
Qed.

Lemma patch_resolve_missing id resolved resolved_by w :
  find (has_id id) (discussions (db w)) = None ->
  patch_resolve id resolved resolved_by w = (json_ok BSuccess, w).
Proof.
  intros H. unfold patch_resolve, bind, getDB. now rewrite H.
Qed.

Lemma patch_resolve_found id resolved resolved_by w x :
  find (has_id id) (discussions (db w)) = Some x ->
  patch_resolve id resolved resolved_by w =
  let d := db w in
  let at_ := if truthy resolved then Some (clock w (ticks w)) else None in
  let d' := mkDB (sections d)
                 (update_first (has_id id) (set_resolution resolved resolved_by at_)
                               (discussions d))
                 (notifications d) (nextId d) in
  (json_ok BSuccess,
   mkWorld d' (FJson (stringify d')) (clock w)
           (if truthy resolved then S (ticks w) else ticks w)).
Proof.
  intros H. destruct w as [[s ds ns c] f clk t]. simpl in *.
  unfold patch_resolve, bind, getDB. simpl. rewrite H.
  destruct (truthy resolved); reflexivity.
Qed.

Lemma delete_discussion_eq id w :
  delete_discussion id w =
  let d := db w in
  let d' := mkDB (sections d)
                 (List.filter (fun x => negb (has_id id x)) (discussions d))
                 (notifications d) (nextId d) in
  (json_ok BSuccess, mkWorld d' (FJson (stringify d')) (clock w) (ticks w)).
Proof. reflexivity. Qed.

(** *** Resolving and replying on an id that no discussion has *)

(** C1 (as stated, refuted). On the freshly installed store, which has
    no discussion, [PATCH /api/discussions/7/resolve] is not answered
    with 404. *)
Lemma resolve_missing_is_404_fails :
  ~ resolve_missing_is_404 (fresh_world sample_clock) "7" (VBool true) (VStr "Wife").
Proof.
  intros C. destruct C as [C _]; [reflexivity |].
  vm_compute in C. discriminate C.
Qed.

(** C1 (amended). Resolving (or reopening) with an id that no discussion
    has answers [200 { success: true }] and leaves the store, the file
    and the clock exactly as they were. *)
Theorem resolve_missing_reports_success (w : World) (id : string)
    (resolved resolved_by : jsval)
    (H : find (has_id id) (discussions (db w)) = None) :
  patch_resolve id resolved resolved_by w = (mkResponse 200 BSuccess, w).
Proof.
  unfold patch_resolve, bind, getDB.
  rewrite H.
  reflexivity.
Qed.

Lemma resolve_missing_reports_success_witness :
  patch_resolve "7" (VBool true) (VStr "Wife") (fresh_world sample_clock)
  = (mkResponse 200 BSuccess, fresh_world sample_clock).
Proof.
  apply (resolve_missing_reports_success (fresh_world sample_clock) "7").
  reflexivity.
Defined.

(** C5. A reply to an id that no discussion has is answered with
    [404 { error: 'Discussion not found' }], and the whole state (store
    with its notifications and counters, file, clock) is as before. *)
Theorem reply_missing_is_404 (w : World) (id : string) (text author : jsval)
    (H : find (has_id id) (discussions (db w)) = None) :
  fst (post_reply id text author w) = mkResponse 404 (BError "Discussion not found")
  /\ snd (post_reply id text author w) = w
  /\ notifications (db (snd (post_reply id text author w))) = notifications (db w).
Proof. rewrite (post_reply_missing id text author w H). now repeat split. Qed.

Lemma reply_missing_is_404_witness :
  fst (post_reply "3" (VStr "hello") (VStr "Wife") (fresh_world sample_clock))
  = mkResponse 404 (BError "Discussion not found")
  /\ snd (post_reply "3" (VStr "hello") (VStr "Wife") (fresh_world sample_clock))
     = fresh_world sample_clock.
Proof.
  destruct (reply_missing_is_404 (fresh_world sample_clock) "3" (VStr "hello") (VStr "Wife"))
    as [W1 [W2 _]]; [reflexivity | split; [exact W1 | exact W2]].
Defined.

(** *** Creation is not validated *)

(** C2 (as stated, refuted). A request with an unknown type, a blank text
    and an unknown author is not rejected. *)
Lemma creation_rejected_fails :
  ~ creation_rejected (fresh_world sample_clock)
      VNull (VStr "poll") (VStr "   ") (VStr "Guest").
Proof.
  intros C. unfold creation_rejected in C.
  assert (Hinv : invalid_creation (VStr "poll") (VStr "   ") (VStr "Guest")).
  { left. intros [E | E]; discriminate E. }
  specialize (C Hinv). cbv zeta in C. destruct C as [C _].
  rewrite post_discussion_eq in C. unfold client_error in C. simpl in C. lia.
Qed.

(** C2 (amended). Every creation request, whatever its type, text and
    author, is answered [200 { id, success: true }] with the value of the
    discussion counter, and appends exactly one discussion, holding the
    request's fields as given, and exactly one notification. *)
Theorem creation_always_succeeds (w : World) (section_id type text author : jsval) :
  let r := post_discussion section_id type text author w in
  fst r = mkResponse 200 (BCreated (next_discussion (nextId (db w))))
  /\ (exists x, discussions (db (snd r)) = (discussions (db w) ++ [x])%list
        /\ d_id x = next_discussion (nextId (db w))
        /\ d_type x = type /\ d_text x = text /\ d_author x = author)
  /\ (exists n, notifications (db (snd r)) = (notifications (db w) ++ [n])%list
        /\ n_discussion_id n = next_discussion (nextId (db w))).
Proof.
  rewrite post_discussion_eq. cbv zeta. simpl. split; [reflexivity | split].
  - eexists. split; [reflexivity |]. simpl. now repeat split.
  - eexists. split; [reflexivity |]. reflexivity.
Qed.

(** *** Who is notified *)

Lemma strict_eq_spec a b : strict_eq a b = true <-> a = b.
Proof.
  unfold strict_eq. destruct a, b; simpl; split; intros H;
    try discriminate; try reflexivity.
  - apply Bool.eqb_prop in H. now subst.
  - injection H as ->. apply Bool.eqb_reflx.
  - apply Z.eqb_eq in H. now subst.
  - injection H as ->. apply Z.eqb_refl.
  - apply String.eqb_eq in H. now subst.
  - injection H as ->. apply String.eqb_refl.
Qed.

Lemma strict_eq_false a b : a <> b -> strict_eq a b = false.
Proof.
  intros H. destruct (strict_eq a b) eqn:E; [| reflexivity].
  apply strict_eq_spec in E. contradiction.
Qed.

Lemma reply_recipients_unknown au :
  ~ known_user au -> reply_recipients au = ["Francisco"; "Wife"].
Proof.
  intros H. unfold reply_recipients. simpl.
  rewrite !strict_eq_false; [reflexivity | |]; intros E; apply H; [right | left]; congruence.
Qed.

(** C4. When the author [U] of a new discussion or of a reply is one of
    the two known users, the handler appends exactly one notification: it
    is unread, its recipient is the known user other than [U], and its
    [discussion_id] is the id of the discussion created (the id returned)
    or replied to (the one [:id] parses to). *)
Theorem one_notification_for_the_other_user (w : World) (U : string)
    (HU : U = "Francisco" \/ U = "Wife") :
  (forall section_id type text,
     let r := post_discussion section_id type text (VStr U) w in
     exists x n,
       discussions (db (snd r)) = (discussions (db w) ++ [x])%list
       /\ notifications (db (snd r)) = (notifications (db w) ++ [n])%list
       /\ n_read n = false
       /\ n_user n <> U /\ known_user (VStr (n_user n))
       /\ n_discussion_id n = d_id x
       /\ fst r = json_ok (BCreated (d_id x)))
  /\ (forall id text disc,
        find (has_id id) (discussions (db w)) = Some disc ->
        let r := post_reply id text (VStr U) w in
        exists n,
          notifications (db (snd r)) = (notifications (db w) ++ [n])%list
          /\ n_read n = false
          /\ n_user n <> U /\ known_user (VStr (n_user n))
          /\ n_discussion_id n = d_id disc
          /\ parseInt_string id = Some (d_id disc)).
Proof.
  split.
  - intros sid ty tx. rewrite post_discussion_eq. cbv zeta. simpl.
    do 2 eexists. split; [reflexivity |]. split; [reflexivity |]. simpl.
    destruct HU as [-> | ->].
    + repeat split; [discriminate | now right].
    + repeat split; [discriminate | now left].
  - intros id tx disc Hf. rewrite (post_reply_found id tx (VStr U) w disc Hf).
    cbv zeta. simpl.
    assert (Hid : parseInt_string id = Some (d_id disc)).
    { apply find_some in Hf. destruct Hf as [_ Hf]. unfold has_id, eq_parsed in Hf.
      destruct (parseInt_string id) as [k |]; [| discriminate].
      apply Z.eqb_eq in Hf. now subst. }
    destruct HU as [-> | ->].
    + eexists. split; [reflexivity |]. simpl.
      repeat split; [discriminate | now right | exact Hid].
    + eexists. split; [reflexivity |]. simpl.
      repeat split; [discriminate | now left | exact Hid].
Qed.

Lemma one_notification_for_the_other_user_witness :
  exists x n,
    discussions (db (snd (post_discussion (VNum 2) (VStr "question") (VStr "Why?")
                            (VStr "Wife") (fresh_world sample_clock)))) = [x]
    /\ notifications (db (snd (post_discussion (VNum 2) (VStr "question") (VStr "Why?")
                                 (VStr "Wife") (fresh_world sample_clock)))) = [n]
    /\ n_read n = false /\ n_user n <> "Wife" /\ n_discussion_id n = d_id x.
Proof.
  destruct (one_notification_for_the_other_user (fresh_world sample_clock) "Wife")
    as [W _]; [now right |].
  destruct (W (VNum 2) (VStr "question") (VStr "Why?"))
    as [x [n [Hd [Hn [Hr [Hu [_ [Hi _]]]]]]]].
  exists x, n. repeat split; assumption.
Defined.

(** C10. When the author is neither ["Francisco"] nor ["Wife"], creation
    still succeeds and appends exactly one notification, addressed to
    ["Francisco"]; a reply by the same author to an existing discussion
    appends two, the first to ["Francisco"] and the second to ["Wife"]. *)
Theorem unknown_author_notifications (w : World) (author : jsval)
    (H : ~ known_user author) :
  (forall section_id type text,
     let r := post_discussion section_id type text author w in
     fst r = mkResponse 200 (BCreated (next_discussion (nextId (db w))))
     /\ exists n,
          notifications (db (snd r)) = (notifications (db w) ++ [n])%list
          /\ n_user n = "Francisco")
  /\ (forall id text disc,
        find (has_id id) (discussions (db w)) = Some disc ->
        let r := post_reply id text author w in
        fst r = mkResponse 200 (BCreated (next_reply (nextId (db w))))
        /\ exists n1 n2,
             notifications (db (snd r)) = (notifications (db w) ++ [n1; n2])%list
             /\ n_user n1 = "Francisco" /\ n_user n2 = "Wife").
Proof.
  split.
  - intros sid ty tx. rewrite post_discussion_eq. cbv zeta. simpl.
    split; [reflexivity |]. eexists. split; [reflexivity |]. simpl.
    rewrite strict_eq_false; [reflexivity |]. intros E. apply H. now left.
  - intros id tx disc Hf. rewrite (post_reply_found id tx author w disc Hf).
    cbv zeta. simpl. split; [reflexivity |].
    rewrite (reply_recipients_unknown author H). simpl.
    do 2 eexists. split; [reflexivity |]. now split.
Qed.

Lemma unknown_author_notifications_witness :
  exists n,
    notifications (db (snd (post_discussion VNull (VStr "comment") (VStr "Hi")
                              (VStr "Guest") (fresh_world sample_clock)))) = [n]
    /\ n_user n = "Francisco".
Proof.
  destruct (unknown_author_notifications (fresh_world sample_clock) (VStr "Guest"))
    as [W _].
  - intros [E | E]; discriminate E.
  - destruct (W VNull (VStr "comment") (VStr "Hi")) as [_ [n [Hn Hu]]].
    exists n. split; assumption.
Defined.

(** *** Sorting, newest first *)

Section SortDescending.
Context {A : Type}.
Variable key : A -> Z.

(** The comparator [(a, b) => key(b) - key(a)]. *)
Let cmp : A -> A -> Z := fun a b => key b - key a.
Let desc : A -> A -> Prop := fun a b => key b <= key a.
Let keyed (t : Z) : A -> bool := fun a => Z.eqb (key a) t.

Lemma sort_insert_perm x l : Permutation (sort_insert cmp x l) (x :: l).
Proof.
  induction l as [| y r IH]; simpl; [reflexivity |].
  destruct (Z.leb (cmp x y) 0); [reflexivity |].
  rewrite IH. apply perm_swap.
Qed.

Lemma Array_sort_perm l : Permutation (Array_sort cmp l) l.
Proof.
  induction l as [| x r IH]; simpl; [reflexivity |].
  rewrite sort_insert_perm. now apply perm_skip.
Qed.

Lemma sort_insert_sorted x l :
  StronglySorted desc l -> StronglySorted desc (sort_insert cmp x l).
Proof.
  induction 1 as [| y r Hs IH Hy]; simpl.
  - constructor; constructor.
  - destruct (Z.leb_spec (cmp x y) 0) as [Hle | Hgt].
    + constructor; [now constructor |].
      constructor; [unfold desc, cmp in *; lia |].
      eapply List.Forall_impl; [| exact Hy]. unfold desc, cmp in *. intros; lia.
    + constructor; [exact IH |].
      eapply Permutation_Forall; [symmetry; apply sort_insert_perm |].
      constructor; [unfold desc, cmp in *; lia | exact Hy].
Qed.

Lemma Array_sort_sorted l : StronglySorted desc (Array_sort cmp l).
Proof.
  induction l as [| x r IH]; simpl; [constructor |].
  now apply sort_insert_sorted.
Qed.

(** Stability: elements of equal key keep their order. *)
Lemma sort_insert_stable t x l :
  List.filter (keyed t) (sort_insert cmp x l) = List.filter (keyed t) (x :: l).
Proof.
  induction l as [| y r IH]; [reflexivity |].
  cbn [sort_insert]. destruct (Z.leb_spec (cmp x y) 0) as [Hle | Hgt]; [reflexivity |].
  cbn [List.filter] in *. rewrite IH. unfold keyed, cmp in *.
  destruct (Z.eqb_spec (key y) t), (Z.eqb_spec (key x) t); try reflexivity. lia.
Qed.

Lemma Array_sort_stable t l :
  List.filter (keyed t) (Array_sort cmp l) = List.filter (keyed t) l.
Proof.
  induction l as [| x r IH]; [reflexivity |].
  cbn [Array_sort]. rewrite sort_insert_stable. cbn [List.filter]. now rewrite IH.
Qed.

(** A list in descending order is determined by the sublists of its
    elements of each key: the result of a stable sort does not depend
    on how it is computed. *)
Lemma sorted_by_classes l1 : forall l2,
  StronglySorted desc l1 -> StronglySorted desc l2 ->
  (forall t, List.filter (keyed t) l1 = List.filter (keyed t) l2) ->
  l1 = l2.
Proof.
  assert (Hin : forall (l l' : list A) x,
             (forall t, List.filter (keyed t) l = List.filter (keyed t) l') ->
             In x l -> In x l').
  { intros l l' x E Hx.
    assert (Hf : In x (List.filter (keyed (key x)) l)).
    { apply filter_In. split; [exact Hx |]. unfold keyed. apply Z.eqb_refl. }
    rewrite E in Hf. apply filter_In in Hf. tauto. }
  assert (Hrefl : forall a, keyed (key a) a = true).
  { intros a. unfold keyed. apply Z.eqb_refl. }
  induction l1 as [| x r1 IH]; intros l2 S1 S2 E.
  - destruct l2 as [| y r2]; [reflexivity |].
    specialize (E (key y)). cbn [List.filter] in E.
    rewrite Hrefl in E. discriminate E.
  - destruct l2 as [| y r2].
    + specialize (E (key x)). cbn [List.filter] in E.
      rewrite Hrefl in E. discriminate E.
    + inversion S1 as [| ? ? S1' F1]; subst. inversion S2 as [| ? ? S2' F2]; subst.
      assert (Hk : key x = key y).
      { assert (Hx : In x (y :: r2)) by (apply (Hin (x :: r1)); [exact E | now left]).
        assert (Hy : In y (x :: r1)).
        { apply (Hin (y :: r2)); [intros t; symmetry; apply E | now left]. }
        rewrite List.Forall_forall in F1, F2. unfold desc in *.
        destruct Hx as [-> | Hx]; [reflexivity |].
        destruct Hy as [<- | Hy]; [reflexivity |].
        specialize (F1 _ Hy). specialize (F2 _ Hx). lia. }
      assert (Hxy : x = y).
      { specialize (E (key x)). cbn [List.filter] in E.
        rewrite Hrefl in E. rewrite Hk in E at 2. rewrite Hrefl in E. congruence. }
      subst y. f_equal. apply IH; [exact S1' | exact S2' |].
      intros t. specialize (E t). cbn [List.filter] in E.
      destruct (keyed t x); congruence.
Qed.

Theorem Array_sort_unique l l' :
  StronglySorted desc l' ->
  (forall t, List.filter (keyed t) l' = List.filter (keyed t) l) ->
  l' = Array_sort cmp l.
Proof.
  intros S E. apply sorted_by_classes; [exact S | apply Array_sort_sorted |].
  intros t. now rewrite E, Array_sort_stable.
Qed.

End SortDescending.

(** *** Listing a user's notifications *)

Lemma two_comments_listing :
  map n_id (notifications (db two_comments_world)) = [1; 2]
  /\ map n_created_at (notifications (db two_comments_world))
     = [1767225600000; 1767225600000]
  /\ map n_id (list_for_user "Wife" (notifications (db two_comments_world))) = [1; 2].
Proof. now vm_compute. Qed.

(** C3 (as stated, refuted). After two comments by Francisco within one
    millisecond, Wife's two notifications carry the same [created_at];
    the listing returns them in the order of insertion (ids 1, 2), not
    with the later one first. *)
Lemma listing_later_first_fails :
  ~ listing_later_first "Wife" (notifications (db two_comments_world)).
Proof.
  intros [_ [_ [_ C]]].
  remember (notifications (db two_comments_world)) as store eqn:Hs.
  remember (list_for_user "Wife" store) as r eqn:Hr.
  vm_compute in Hs. subst store. vm_compute in Hr. subst r.
  edestruct (C 0%nat 1%nat) as [p [q [Hp [Hq Hlt]]]];
    [lia | reflexivity | reflexivity | reflexivity |].
  destruct p as [| [| p]]; simpl in Hp.
  - lia.
  - discriminate Hp.
  - destruct p; discriminate Hp.
Qed.

Lemma firstn_filter_prefix {A : Type} (p : A -> bool) (k : nat) (l : list A) :
  exists rest, List.filter p l = (List.filter p (firstn k l) ++ rest)%list.
Proof.
  exists (List.filter p (skipn k l)).
  rewrite <- List.filter_app. now rewrite firstn_skipn.
Qed.

(** C3 (amended). The listing for a user holds at most 50 notifications,
    all of that user and all from the store; it is in descending order of
    [created_at]; notifications of equal [created_at] appear in the order
    in which they were inserted, the earlier insertion first; and what is
    left out is no more recent than anything listed. *)
Theorem list_for_user_newest_first_stable (user : string) (store : list Notification) :
  let r := list_for_user user store in
  (length r <= 50)%nat
  /\ Forall (fun n => n_user n = user /\ In n store) r
  /\ newest_to_oldest r
  /\ (forall t, exists rest,
        List.filter (at_time t) (List.filter (for_user user) store)
        = (List.filter (at_time t) r ++ rest)%list)
  /\ (exists older,
        Permutation (r ++ older) (List.filter (for_user user) store)
        /\ forall a b, In a r -> In b older -> n_created_at b <= n_created_at a).
Proof.
  cbv zeta. unfold list_for_user.
  set (mine := List.filter (for_user user) store).
  set (sorted := Array_sort newest_first mine).
  assert (Hperm : Permutation sorted mine) by apply (Array_sort_perm n_created_at).
  assert (Hsorted : newest_to_oldest sorted) by apply (Array_sort_sorted n_created_at).
  assert (Hsplit : sorted = (firstn 50 sorted ++ skipn 50 sorted)%list)
    by (symmetry; apply firstn_skipn).
  split; [apply firstn_le_length |].
  split.
  { apply List.Forall_forall. intros n Hn.
    assert (Hm : In n mine).
    { eapply Permutation_in; [exact Hperm |].
      rewrite Hsplit. apply in_or_app. now left. }
    apply filter_In in Hm. destruct Hm as [Hs Hu]. split; [| exact Hs].
    unfold for_user in Hu. now apply String.eqb_eq in Hu. }
  split.
  { unfold newest_to_oldest in *. rewrite Hsplit in Hsorted.
    clear - Hsorted. induction (firstn 50 sorted) as [| a l IH]; [constructor |].
    simpl in Hsorted. inversion Hsorted as [| ? ? S F]; subst.
    constructor; [now apply IH |].
    apply List.Forall_app in F. tauto. }
  split.
  { intros t.
    destruct (firstn_filter_prefix (at_time t) 50 sorted) as [rest E].
    exists rest. rewrite <- E. symmetry.
    exact (Array_sort_stable n_created_at t mine). }
  exists (skipn 50 sorted). split; [now rewrite <- Hsplit |].
  intros a b Ha Hb. unfold newest_to_oldest in Hsorted. rewrite Hsplit in Hsorted.
  clear - Hsorted Ha Hb. induction (firstn 50 sorted) as [| c l IH]; [destruct Ha |].
  simpl in Hsorted. inversion Hsorted as [| ? ? S F]; subst.
  destruct Ha as [-> | Ha]; [| now apply IH].
  rewrite List.Forall_forall in F. apply F. apply in_or_app. now right.
Qed.

(** *** The file: writing the store and reading it back *)

Lemma get_app k l1 l2 :
  get k (l1 ++ l2) = match get k l2 with Some x => Some x | None => get k l1 end.
Proof.
  induction l1 as [| [k' v] r IH]; simpl.
  - now destruct (get k l2).
  - rewrite IH. now destruct (get k l2).
Qed.

Lemma get_prop k k' v : get k (prop k' v) = if String.eqb k k' then v else None.
Proof. destruct v; simpl; [reflexivity | now destruct (String.eqb k k')]. Qed.

Lemma get_fields k fields :
  get k (flat_map (fun '(k, v) => prop k v) fields) = getf k fields.
Proof.
  induction fields as [| [k' v] r IH]; [reflexivity |].
  cbn [flat_map getf]. now rewrite get_app, IH, get_prop.
Qed.

Lemma to_val_of_val v : to_val (of_val v) = Some v.
Proof. now destruct v. Qed.

Lemma to_ref_of_ref r : to_ref (Some (of_ref r)) = Some (normalize_ref r).
Proof. now destruct r. Qed.

Lemma all_some_map {A B : Type} (enc : A -> json) (dec : json -> option B) (g : A -> B) l :
  (forall x, dec (enc x) = Some (g x)) ->
  all_some dec (map enc l) = Some (map g l).
Proof.
  intros H. induction l as [| x r IH]; [reflexivity |].
  simpl. now rewrite H, IH.
Qed.

Lemma option_eta {A : Type} (o : option A) :
  match o with Some x => Some x | None => None end = o.
Proof. now destruct o. Qed.

Ltac read_fields :=
  cbv beta iota;
  rewrite ?get_fields;
  cbv [getf String.eqb Ascii.eqb Bool.eqb];
  repeat rewrite option_eta;
  rewrite ?to_val_of_val, ?to_ref_of_ref.

Lemma to_section_of_section s : to_section (of_section s) = Some s.
Proof.
  unfold of_section, obj, to_section. read_fields.
  destruct s as [i t l c u]. simpl. now destruct u.
Qed.

Lemma to_reply_of_reply r : to_reply (of_reply r) = Some r.
Proof.
  unfold of_reply, obj, to_reply. read_fields. now destruct r.
Qed.

Lemma to_discussion_of_discussion x :
  to_discussion (of_discussion x) = Some (normalize_discussion x).
Proof.
  unfold of_discussion, obj, to_discussion. read_fields.
  destruct x as [i s ty tx au r rb ra c rs]. simpl.
  rewrite (all_some_map of_reply to_reply (fun r => r)) by apply to_reply_of_reply.
  rewrite map_id. now destruct ra.
Qed.

Lemma to_notification_of_notification n :
  to_notification (of_notification n) = Some n.
Proof.
  unfold of_notification, obj, to_notification. read_fields. now destruct n.
Qed.

Lemma parse_stringify d : parse (stringify d) = Some (normalize d).
Proof.
  destruct d as [s ds ns [a b c]]. unfold stringify, parse. simpl.
  cbv [get String.eqb Ascii.eqb Bool.eqb]. simpl.
  rewrite (all_some_map of_section to_section (fun x => x)) by apply to_section_of_section.
  rewrite (all_some_map of_discussion to_discussion normalize_discussion)
    by apply to_discussion_of_discussion.
  rewrite (all_some_map of_notification to_notification (fun x => x))
    by apply to_notification_of_notification.
  now rewrite !map_id.
Qed.

Lemma normalize_conforms d : conforms d -> normalize d = d.
Proof.
  destruct d as [s ds ns c]. unfold conforms, normalize, set_discussions. simpl.
  intros H. f_equal. induction H as [| x r Hx _ IH]; [reflexivity |].
  simpl. rewrite IH. f_equal.
  destruct x as [i sr ty tx au rv rb ra cr rs]. simpl in *.
  unfold normalize_discussion. simpl. now destruct sr.
Qed.

Lemma normalize_idem d : normalize (normalize d) = normalize d.
Proof.
  destruct d as [s ds ns c]. unfold normalize, set_discussions. simpl. f_equal.
  rewrite map_map. apply List.map_ext. intros x.
  unfold normalize_discussion. simpl. now destruct (d_section_id x).
Qed.

Lemma stringify_normalize d : stringify (normalize d) = stringify d.
Proof.
  destruct d as [s ds ns c]. unfold stringify, normalize, set_discussions. simpl.
  rewrite map_map.
  rewrite (List.map_ext (fun x => of_discussion (normalize_discussion x)) of_discussion);
    [reflexivity |].
  intros x. unfold of_discussion, normalize_discussion. simpl.
  now destruct (d_section_id x).
Qed.

Lemma all_some_Forall {A B : Type} (f : A -> option B) (P : B -> Prop) l : forall ys,
  (forall x y, f x = Some y -> P y) ->
  all_some f l = Some ys -> Forall P ys.
Proof.
  induction l as [| x r IH]; intros ys H E; simpl in E.
  - injection E as <-. constructor.
  - destruct (f x) as [y |] eqn:Hy; [| discriminate].
    destruct (all_some f r) as [ys' |] eqn:Hr; [| discriminate].
    injection E as <-. constructor; [now apply (H x) | now apply IH].
Qed.

Ltac split_match H :=
  repeat match type of H with
         | match ?X with _ => _ end = Some _ =>
             let E := fresh "E" in destruct X eqn:E; try discriminate H
         end.

Lemma to_discussion_conforms j x : to_discussion j = Some x -> d_section_id x <> SNaN.
Proof.
  intros H. unfold to_discussion in H. destruct j; try discriminate H.
  split_match H. injection H as <-. simpl.
  match goal with E : to_ref _ = Some _ |- _ => unfold to_ref in E; split_match E;
    injection E as <- end; discriminate.
Qed.

(** Whatever is read from a file has no [NaN] in it. *)
Lemma parse_conforms j d : parse j = Some d -> conforms d.
Proof.
  intros H. unfold parse in H. destruct j; try discriminate H.
  split_match H. injection H as <-. unfold conforms. simpl.
  match goal with E : to_list to_discussion _ = Some _ |- _ =>
    unfold to_list in E; split_match E;
    eapply all_some_Forall; [| exact E] end.
  apply to_discussion_conforms.
Qed.

(** C9. Writing a store that conforms to the schema and loading the file
    back gives the same store (sections, discussions with their replies,
    notifications and the three counters), and [loadDB] leaves the file as
    written. *)
Theorem save_then_load_is_identity (content : Z -> string) (w : World) (d : DB)
    (H : conforms d) :
  parse (stringify d) = Some d
  /\ loadDB content (disk (snd (saveDB d w))) = Some (d, FJson (stringify d)).
Proof.
  assert (E : parse (stringify d) = Some d).
  { rewrite parse_stringify. now rewrite normalize_conforms. }
  split; [exact E |]. unfold saveDB, loadDB. cbn [snd disk]. now rewrite E.
Qed.

Lemma session_world_conforms : conforms (db session_world).
Proof. vm_compute. repeat constructor. discriminate. Qed.

Lemma save_then_load_is_identity_witness :
  loadDB no_text (disk (snd (saveDB (db session_world) (fresh_world sample_clock))))
  = Some (db session_world, FJson (stringify (db session_world))).
Proof.
  apply (save_then_load_is_identity no_text (fresh_world sample_clock) (db session_world)).
  exact session_world_conforms.
Defined.

(** Outside the schema the file is lossy: a [section_id] that is [NaN] in
    memory is [null] after a reload. *)
Lemma NaN_section_id_is_not_preserved :
  map d_section_id (discussions (db stray_section_world)) = [SNaN]
  /\ exists d, loadDB no_text (disk stray_section_world) = Some (d, disk stray_section_world)
               /\ map d_section_id (discussions d) = [SNull].
Proof.
  split; [now vm_compute |].
  eexists. split; [vm_compute; reflexivity | reflexivity].
Qed.

(** *** The remaining handlers in closed form *)

Lemma put_section_missing id title content w :
  find (fun s => eq_parsed (s_id s) (parseInt_string id)) (sections (db w)) = None ->
  put_section id title content w = (json_ok BSuccess, w).
Proof. intros H. unfold put_section, bind, getDB. now rewrite H. Qed.

Lemma put_section_found id title content w s :
  find (fun s => eq_parsed (s_id s) (parseInt_string id)) (sections (db w)) = Some s ->
  put_section id title content w =
  let d := db w in
  let d' := mkDB (update_first (fun s => eq_parsed (s_id s) (parseInt_string id))
                    (edit_section title content (clock w (ticks w))) (sections d))
                 (discussions d) (notifications d) (nextId d) in
  (json_ok BSuccess, mkWorld d' (FJson (stringify d')) (clock w) (S (ticks w))).
Proof.
  intros H. destruct w as [[ss ds ns c] f clk t]. simpl in *.
  unfold put_section, bind, getDB. simpl. now rewrite H.
Qed.

Lemma patch_notification_read_missing id w :
  find (fun n => eq_parsed (n_id n) (parseInt_string id)) (notifications (db w)) = None ->
  patch_notification_read id w = (json_ok BSuccess, w).
Proof. intros H. unfold patch_notification_read, bind, getDB. now rewrite H. Qed.

Lemma patch_notification_read_found id w n :
  find (fun n => eq_parsed (n_id n) (parseInt_string id)) (notifications (db w)) = Some n ->
  patch_notification_read id w =
  let d := db w in
  let d' := mkDB (sections d) (discussions d)
                 (update_first (fun n => eq_parsed (n_id n) (parseInt_string id))
                    mark_read (notifications d))
                 (nextId d) in
  (json_ok BSuccess, mkWorld d' (FJson (stringify d')) (clock w) (ticks w)).
Proof.
  intros H. destruct w as [[ss ds ns c] f clk t]. simpl in *.
  unfold patch_notification_read, bind, getDB. simpl. now rewrite H.
Qed.

Lemma patch_read_all_eq user w :
  patch_read_all user w =
  let d := db w in
  let d' := mkDB (sections d) (discussions d)
                 (map (fun n => if for_user user n then mark_read n else n)
                      (notifications d))
                 (nextId d) in
  (json_ok BSuccess, mkWorld d' (FJson (stringify d')) (clock w) (ticks w)).
Proof. reflexivity. Qed.

Lemma read_only_requests r w :
  match r with
  | GetSections | GetSection _ | GetDiscussions | GetSectionDiscussions _
  | GetNotifications _ | GetStats => snd (handle r w) = w
  | _ => True
  end.
Proof.
  destruct r; try exact I; try reflexivity.
  cbn [handle]. unfold get_section, bind, getDB.
  now destruct (find _ _).
Qed.

(** Replace the call of a mutating handler by its closed form, splitting
    on whether the object it looks for is there. *)
Ltac closed_form w :=
  first
    [ match goal with
      | |- context [handle ?r w] =>
          let H := fresh "Hro" in
          pose proof (read_only_requests r w) as H; cbn beta iota in H;
          rewrite !H; clear H
      end
    | cbn [handle];
      match goal with
      | |- context [post_discussion ?a ?b ?c ?d w] =>
          rewrite !(post_discussion_eq a b c d w)
      | |- context [delete_discussion ?i w] => rewrite !(delete_discussion_eq i w)
      | |- context [patch_read_all ?u w] => rewrite !(patch_read_all_eq u w)
      | |- context [post_reply ?i ?t ?a w] =>
          let H := fresh "Hfind" in
          destruct (find (has_id i) (discussions (db w))) eqn:H;
          [rewrite !(post_reply_found i t a w _ H)
          | rewrite !(post_reply_missing i t a w H)]
      | |- context [patch_resolve ?i ?r ?b w] =>
          let H := fresh "Hfind" in
          destruct (find (has_id i) (discussions (db w))) eqn:H;
          [rewrite !(patch_resolve_found i r b w _ H)
          | rewrite !(patch_resolve_missing i r b w H)]
      | |- context [put_section ?i ?t ?c w] =>
          let H := fresh "Hfind" in
          destruct (find (fun s => eq_parsed (s_id s) (parseInt_string i))
                         (sections (db w))) eqn:H;
          [rewrite !(put_section_found i t c w _ H)
          | rewrite !(put_section_missing i t c w H)]
      | |- context [patch_notification_read ?i w] =>
          let H := fresh "Hfind" in
          destruct (find (fun n => eq_parsed (n_id n) (parseInt_string i))
                         (notifications (db w))) eqn:H;
          [rewrite !(patch_notification_read_found i w _ H)
          | rewrite !(patch_notification_read_missing i w H)]
      end ];
  cbv zeta;
  cbn [fst snd db disk clock ticks sections discussions notifications nextId
       next_discussion next_reply next_notification].

(** Every handler leaves the clock alone, and either leaves store and file
    alone or ends with the file holding the store. *)
Lemma handle_frame r w :
  clock (snd (handle r w)) = clock w
  /\ ((db (snd (handle r w)) = db w /\ disk (snd (handle r w)) = disk w)
      \/ disk (snd (handle r w)) = FJson (stringify (db (snd (handle r w))))).
Proof.
  destruct r; closed_form w; split; try reflexivity; auto.
Qed.

(** Only creation moves the discussion counter, by one, and it answers
    with the value the counter had. *)
Lemma handle_counter r w :
  next_discussion (nextId (db (snd (handle r w)))) =
    match r with
    | PostDiscussion _ _ _ _ => next_discussion (nextId (db w)) + 1
    | _ => next_discussion (nextId (db w))
    end
  /\ match r with
     | PostDiscussion _ _ _ _ =>
         fst (handle r w) = json_ok (BCreated (next_discussion (nextId (db w))))
     | _ => True
     end.
Proof.
  destruct r; closed_form w; split; try reflexivity; auto.
Qed.

(** *** Reachable states *)

Lemma boot_loadable content f clk t w : boot content f clk t = Some w -> loadable w.
Proof.
  unfold boot, loadDB, loadable. destruct f as [| | j].
  - intros E. injection E as <-. simpl. eexists. split; [reflexivity |].
    apply parse_stringify.
  - intros E. injection E as <-. simpl. eexists. split; [reflexivity |].
    apply parse_stringify.
  - destruct (parse j) as [d |] eqn:Hp; [| discriminate].
    intros E. injection E as <-. simpl. exists j. split; [reflexivity |].
    rewrite normalize_conforms; [exact Hp | now apply (parse_conforms j)].
Qed.

Lemma handle_loadable r w : loadable w -> loadable (snd (handle r w)).
Proof.
  intros [j [Hd Hp]]. destruct (handle_frame r w) as [_ [[Edb Edisk] | Esaved]].
  - exists j. now rewrite Edb, Edisk.
  - eexists. split; [exact Esaved |]. apply parse_stringify.
Qed.

(** A restart on a loadable file brings back the store, up to [NaN]. *)
Lemma restart_loadable content w :
  loadable w ->
  restart content w
  = Some (mkWorld (normalize (db w)) (disk w) (clock w) (ticks w)).
Proof.
  intros [j [Hd Hp]]. unfold restart, boot, loadDB. now rewrite Hd, Hp.
Qed.

Lemma restart_keeps_loadable content w w' :
  loadable w -> restart content w = Some w' -> loadable w'.
Proof.
  intros L E. rewrite (restart_loadable content w L) in E. injection E as <-.
  destruct L as [j [Hd Hp]]. exists j. simpl. now rewrite normalize_idem.
Qed.

Lemma reachable_loadable content w : reachable content w -> loadable w.
Proof.
  induction 1 as [f clk t w Hb | w r _ IH | w w' _ IH Hr].
  - now apply (boot_loadable content f clk t).
  - now apply handle_loadable.
  - now apply (restart_keeps_loadable content w).
Qed.

Lemma fresh_is_reachable content w : reachable_fresh content w -> reachable content w.
Proof.
  induction 1 as [f clk t w _ Hb | w r _ IH | w w' _ IH Hr].
  - now apply (reach_boot content f clk t).
  - now apply reach_call.
  - now apply (reach_restart content w).
Qed.

Lemma run_reachable_fresh content evs : forall w log w',
  reachable_fresh content w -> run content evs w = Some (log, w') ->
  reachable_fresh content w'.
Proof.
  induction evs as [| [r |] rest IH]; intros w log w' R E; simpl in E.
  - now injection E as <- <-.
  - destruct (handle r w) as [resp w1] eqn:Hh.
    destruct (run content rest w1) as [[log1 w2] |] eqn:Hr; [| discriminate].
    injection E as <- <-. apply (IH w1 log1); [| exact Hr].
    replace w1 with (snd (handle r w)) by now rewrite Hh.
    now apply fresh_call.
  - destruct (restart content w) as [w1 |] eqn:Hr; [| discriminate].
    apply (IH w1 log); [| exact E]. now apply (fresh_restart content w).
Qed.

(** *** The resolution fields *)

Lemma Forall_update_first {A : Type} (P : A -> Prop) (p : A -> bool) (f : A -> A) l :
  (forall x, P x -> P (f x)) -> Forall P l -> Forall P (update_first p f l).
Proof.
  intros Hf. induction 1 as [| x r Hx Hr IH]; simpl; [constructor |].
  destruct (p x); constructor; auto.
Qed.

Lemma find_update_first {A : Type} (p : A -> bool) (f : A -> A) l x :
  (forall y, p (f y) = p y) ->
  find p l = Some x -> find p (update_first p f l) = Some (f x).
Proof.
  intros Hp. induction l as [| y r IH]; simpl; [discriminate |].
  destruct (p y) eqn:Hy.
  - intros E. injection E as <-. simpl. now rewrite Hp, Hy.
  - intros E. simpl. rewrite Hy. now apply IH.
Qed.

Lemma set_resolution_clear rv rb at_ x :
  (truthy rv = false -> at_ = None) ->
  unresolved_is_clear (set_resolution rv rb at_ x).
Proof.
  intros H. unfold unresolved_is_clear, set_resolution. simpl.
  intros E. rewrite E. split; [reflexivity | now apply H].
Qed.

Lemma handle_keeps_resolution r w :
  resolution_invariant (db w) -> resolution_invariant (db (snd (handle r w))).
Proof.
  unfold resolution_invariant. intros I.
  destruct r; closed_form w; try exact I.
  - apply Forall_app. split; [exact I |]. constructor; [| constructor].
    intros _. now split.
  - apply Forall_update_first; [| exact I]. intros x. exact (fun H => H).
  - apply Forall_update_first; [| exact I]. intros x _.
    apply set_resolution_clear. intros E. now rewrite E.
  - apply List.Forall_forall. intros x Hx. apply filter_In in Hx.
    rewrite List.Forall_forall in I. now apply I.
Qed.

Lemma normalize_keeps_resolution d :
  resolution_invariant d -> resolution_invariant (normalize d).
Proof.
  unfold resolution_invariant, normalize, set_discussions. simpl.
  intros I. apply List.Forall_forall. intros x Hx. apply in_map_iff in Hx.
  destruct Hx as [y [<- Hy]]. rewrite List.Forall_forall in I. exact (I y Hy).
Qed.

Lemma reachable_fresh_resolution content w :
  reachable_fresh content w -> resolution_invariant (db w).
Proof.
  induction 1 as [f clk t w Hf Hb | w r _ IH | w w' R IH Hr].
  - unfold boot, loadDB in Hb.
    destruct Hf as [-> | ->]; injection Hb as <-; constructor.
  - now apply handle_keeps_resolution.
  - rewrite (restart_loadable content w) in Hr
      by (apply (reachable_loadable content), fresh_is_reachable, R).
    injection Hr as <-. simpl. now apply normalize_keeps_resolution.
Qed.

(** Resolving and then reopening, on any store that has the discussion. *)
Lemma resolve_then_reopen w id X Y x :
  find (has_id id) (discussions (db w)) = Some x ->
  let w1 := snd (patch_resolve id (VBool true) X w) in
  let w2 := snd (patch_resolve id (VBool false) Y w1) in
  exists x',
    find (has_id id) (discussions (db w2)) = Some x'
    /\ d_id x' = d_id x
    /\ d_resolved x' = VBool false
    /\ d_resolved_by x' = VNull
    /\ d_resolved_at x' = None.
Proof.
  intros Hf. cbv zeta.
  assert (Hid : forall rv rb at_ y, has_id id (set_resolution rv rb at_ y) = has_id id y)
    by reflexivity.
  rewrite (patch_resolve_found id (VBool true) X w x Hf). cbv zeta. cbn [snd].
  set (w1 := mkWorld _ _ _ _).
  assert (Hf1 : find (has_id id) (discussions (db w1))
                = Some (set_resolution (VBool true) X (Some (clock w (ticks w))) x)).
  { subst w1. cbn [db discussions]. apply find_update_first; [apply Hid | exact Hf]. }
  rewrite (patch_resolve_found id (VBool false) Y w1 _ Hf1). cbv zeta.
  cbn [snd db discussions].
  eexists. split.
  - apply find_update_first; [apply Hid | exact Hf1].
  - now repeat split.
Qed.

(** C6. In every state reached from a fresh install by any requests and
    restarts, a discussion whose [resolved] is [false] (indeed, any falsy
    value) has [resolved_by = null] and [resolved_at = null]; and on any
    store, resolving a discussion as [X] and then reopening it as [Y]
    leaves it with [resolved = false], [resolved_by = null] and
    [resolved_at = null]. *)
Theorem unresolved_has_no_attribution (content : Z -> string) (w : World)
    (H : reachable_fresh content w) :
  Forall (fun x => d_resolved x = VBool false ->
                   d_resolved_by x = VNull /\ d_resolved_at x = None)
         (discussions (db w))
  /\ resolution_invariant (db w)
  /\ forall id X Y x,
       find (has_id id) (discussions (db w)) = Some x ->
       exists x',
         find (has_id id)
              (discussions (db (snd (patch_resolve id (VBool false) Y
                                  (snd (patch_resolve id (VBool true) X w))))))
         = Some x'
         /\ d_id x' = d_id x
         /\ d_resolved x' = VBool false
         /\ d_resolved_by x' = VNull
         /\ d_resolved_at x' = None.
Proof.
  pose proof (reachable_fresh_resolution content w H) as I.
  split; [| split; [exact I |]].
  - eapply List.Forall_impl; [| exact I]. intros x Hx E. apply Hx. now rewrite E.
  - intros id X Y x Hf. exact (resolve_then_reopen w id X Y x Hf).
Qed.

Lemma fresh_world_reachable clk : reachable_fresh no_text (fresh_world clk).
Proof.
  apply (fresh_boot no_text FAbsent clk 0%nat); [now left | reflexivity].
Qed.

Lemma session_world_reachable : reachable_fresh no_text session_world.
Proof.
  unfold session_world.
  destruct (run no_text session_events (fresh_world sample_clock))
    as [[log w] |] eqn:E.
  - apply (run_reachable_fresh no_text session_events (fresh_world sample_clock) log w);
      [apply fresh_world_reachable | exact E].
  - apply fresh_world_reachable.
Qed.

Lemma unresolved_has_no_attribution_witness :
  Forall (fun x => d_resolved x = VBool false ->
                   d_resolved_by x = VNull /\ d_resolved_at x = None)
         (discussions (db session_world))
  /\ map d_resolved (discussions (db session_world)) = [VBool false].
Proof.
  split.
  - apply (unresolved_has_no_attribution no_text session_world session_world_reachable).
  - reflexivity.
Defined.

(** *** The discussion counter *)

Lemma handle_keeps_ids_below r w :
  ids_below_counter (db w) -> ids_below_counter (db (snd (handle r w))).
Proof.
  unfold ids_below_counter. intros I.
  destruct r; closed_form w; try exact I.
  - apply Forall_app. split.
    + eapply List.Forall_impl; [| exact I]. simpl. intros; lia.
    + constructor; [simpl; lia | constructor].
  - apply Forall_update_first; [| exact I]. intros x. exact (fun H => H).
  - apply Forall_update_first; [| exact I]. intros x. exact (fun H => H).
  - apply List.Forall_forall. intros x Hx. apply filter_In in Hx.
    rewrite List.Forall_forall in I. now apply I.
Qed.

Lemma reachable_fresh_ids_below content w :
  reachable_fresh content w -> ids_below_counter (db w).
Proof.
  induction 1 as [f clk t w Hf Hb | w r _ IH | w w' R IH Hr].
  - unfold boot, loadDB in Hb.
    destruct Hf as [-> | ->]; injection Hb as <-; constructor.
  - now apply handle_keeps_ids_below.
  - rewrite (restart_loadable content w) in Hr
      by (apply (reachable_loadable content), fresh_is_reachable, R).
    injection Hr as <-. unfold ids_below_counter, normalize, set_discussions in *.
    simpl. apply List.Forall_forall. intros x Hx. apply in_map_iff in Hx.
    destruct Hx as [y [<- Hy]]. rewrite List.Forall_forall in IH. exact (IH y Hy).
Qed.

Lemma created_ids_cons r resp log :
  created_ids ((r, resp) :: log) =
  (match r, body resp with
   | PostDiscussion _ _ _ _, BCreated id => [id]
   | _, _ => []
   end ++ created_ids log)%list.
Proof. reflexivity. Qed.

(** Along any run from a loadable state the run is defined, and the ids
    handed out lie between the counter at the start and the counter at
    the end, in increasing order. *)
Lemma run_counter content evs : forall w,
  loadable w ->
  exists log w',
    run content evs w = Some (log, w')
    /\ loadable w'
    /\ next_discussion (nextId (db w)) <= next_discussion (nextId (db w'))
    /\ StronglySorted Z.lt (created_ids log)
    /\ Forall (fun id => next_discussion (nextId (db w)) <= id
                         < next_discussion (nextId (db w')))
              (created_ids log).
Proof.
  induction evs as [| [r |] rest IH]; intros w L; simpl.
  - exists [], w. repeat split; try constructor; try assumption; lia.
  - destruct (handle r w) as [resp w1] eqn:Hh.
    assert (Hw1 : w1 = snd (handle r w)) by now rewrite Hh.
    assert (Hresp : resp = fst (handle r w)) by now rewrite Hh.
    destruct (IH w1) as [log [w2 [Hrun [L2 [Hle [Hs Hb]]]]]].
    { rewrite Hw1. now apply handle_loadable. }
    rewrite Hrun. exists ((r, resp) :: log), w2.
    destruct (handle_counter r w) as [Hc Hr]. rewrite <- Hw1 in Hc.
    rewrite created_ids_cons.
    assert (Hrest : Forall (fun id => next_discussion (nextId (db w)) <= id
                                      < next_discussion (nextId (db w2)))
                           (created_ids log)).
    { eapply List.Forall_impl; [| exact Hb]. simpl. intros a Ha.
      destruct r; rewrite Hc in Ha; lia. }
    split; [reflexivity |]. split; [exact L2 |].
    destruct r; try (simpl app; repeat split; [rewrite Hc in Hle; lia | exact Hs | exact Hrest]).
    rewrite <- Hresp in Hr. rewrite Hr. cbn [body json_ok app].
    rewrite Hc in Hle, Hb.
    split; [lia |]. split.
    + constructor; [exact Hs |].
      eapply List.Forall_impl; [| exact Hb]. simpl. intros; lia.
    + constructor; [lia | exact Hrest].
  - rewrite (restart_loadable content w L).
    destruct (IH (mkWorld (normalize (db w)) (disk w) (clock w) (ticks w)))
      as [log [w2 [Hrun [L2 [Hle [Hs Hb]]]]]].
    { apply (restart_keeps_loadable content w); [exact L |].
      apply restart_loadable, L. }
    exists log, w2. split; [exact Hrun |]. split; [exact L2 |].
    split; [exact Hle |]. split; [exact Hs | exact Hb].
Qed.

(** C7. Start the server on any file and drive it by any requests
    (deletions included) and restarts. The run is defined; the ids
    answered to creation requests are strictly increasing, so each is
    greater than every id handed out before it; all of them are below the
    discussion counter of the final state, which is also the counter the
    file holds; a further creation is answered with an id above all of
    them and below the new counter, and the listing that follows contains
    the new discussion under that id. On a fresh install the counter
    also exceeds the id of every stored discussion. *)
Theorem discussion_ids_strictly_increase (content : Z -> string) (f : File)
    (clk : nat -> Z) (t : nat) (w0 : World) (evs : list Event)
    (Hboot : boot content f clk t = Some w0) :
  exists log w,
    run content evs w0 = Some (log, w)
    /\ StronglySorted Z.lt (created_ids log)
    /\ Forall (fun id => id < next_discussion (nextId (db w))) (created_ids log)
    /\ (exists j d, disk w = FJson j /\ parse j = Some d /\ nextId d = nextId (db w))
    /\ (forall section_id type text author,
          let r := handle (PostDiscussion section_id type text author) w in
          exists id,
            fst r = json_ok (BCreated id)
            /\ Forall (fun id' => id' < id) (created_ids log)
            /\ id < next_discussion (nextId (db (snd r)))
            /\ exists views v,
                 fst (handle GetDiscussions (snd r)) = json_ok (BViews views)
                 /\ In v views
                 /\ d_id (v_discussion v) = id
                 /\ d_type (v_discussion v) = type
                 /\ d_text (v_discussion v) = text
                 /\ d_author (v_discussion v) = author)
    /\ (f = FAbsent \/ f = FCorrupt -> ids_below_counter (db w)).
Proof.
  pose proof (boot_loadable content f clk t w0 Hboot) as L0.
  destruct (run_counter content evs w0 L0) as [log [w [Hrun [L [Hle [Hs Hb]]]]]].
  exists log, w. split; [exact Hrun |]. split; [exact Hs |].
  split; [eapply List.Forall_impl; [| exact Hb]; simpl; intros; lia |].
  split.
  { destruct L as [j [Hd Hp]]. exists j, (normalize (db w)).
    split; [exact Hd |]. split; [exact Hp |]. reflexivity. }
  split.
  { intros sid ty tx au. cbv zeta. cbn [handle].
    rewrite post_discussion_eq. cbv zeta. cbn [fst snd].
    exists (next_discussion (nextId (db w))).
    split; [reflexivity |].
    split; [eapply List.Forall_impl; [| exact Hb]; simpl; intros; lia |].
    split; [simpl; lia |].
    unfold get_discussions, bind, getDB, ret. cbn [fst db discussions].
    eexists. eexists. split; [reflexivity |]. split.
    - rewrite map_app. apply in_or_app. right. left. reflexivity.
    - now repeat split. }
  intros Hf. apply (reachable_fresh_ids_below content).
  apply (run_reachable_fresh content evs w0 log w); [| exact Hrun].
  now apply (fresh_boot content f clk t).
Qed.

Lemma discussion_ids_strictly_increase_witness :
  exists log w,
    run no_text session_events (fresh_world sample_clock) = Some (log, w)
    /\ StronglySorted Z.lt (created_ids log)
    /\ Forall (fun id => id < next_discussion (nextId (db w))) (created_ids log).
Proof.
  destruct (discussion_ids_strictly_increase no_text FAbsent sample_clock 0%nat
              (fresh_world sample_clock) session_events)
    as [log [w [Hrun [Hs [Hb _]]]]]; [reflexivity |].
  exists log, w. split; [exact Hrun |]. split; [exact Hs | exact Hb].
Defined.

(** The same run, computed: the one creation is answered with id 1 and
    the counter ends at 2, in memory and in the file. *)
Example session_ids :
  option_map (fun '(log, w) => (created_ids log, next_discussion (nextId (db w))))
             (run no_text session_events (fresh_world sample_clock))
  = Some ([1], 2).
Proof. reflexivity. Qed.

(** * Further properties of the server *)

(** ** Password comparison *)

Lemma byte_diff_zero a : forall b acc,
  String.length a = String.length b ->
  (byte_diff a b acc = 0%N <-> acc = 0%N /\ a = b).
Proof.
  induction a as [| x a IH]; intros [| y b] acc Hlen; simpl in *;
    try discriminate Hlen.
  - tauto.
  - injection Hlen as Hlen. rewrite (IH b _ Hlen). split.
    + intros [Hor ->]. apply N.lor_eq_0_iff in Hor. destruct Hor as [-> Hx].
      apply N.lxor_eq in Hx.
      assert (E : x = y).
      { rewrite <- (ascii_N_embedding x), <- (ascii_N_embedding y). now rewrite Hx. }
      now subst.
    + intros [-> E]. injection E as -> ->.
      now rewrite N.lxor_nilpotent.
Qed.


(** ** The security log *)

Lemma removelast_firstn_length {A : Type} (l : list A) :
  removelast l = firstn (Nat.pred (length l)) l.
Proof.
  induction l as [| x [| y r] IH]; [reflexivity | reflexivity |].
  change (removelast (x :: y :: r)) with (x :: removelast (y :: r)).
  rewrite IH. reflexivity.
Qed.



(** ** The session gate *)

Lemma auth_validate_agrees token s :
  fst (Auth.validateSession token s)
  = fst (Session.validateSession (next_reading s) token (sv_sessions s))
  /\ sv_sessions (snd (Auth.validateSession token s))
     = snd (Session.validateSession (next_reading s) token (sv_sessions s))
  /\ same_store s (snd (Auth.validateSession token s))
  /\ sv_securityLog (snd (Auth.validateSession token s)) = sv_securityLog s
  /\ sv_draws (snd (Auth.validateSession token s)) = sv_draws s
  /\ sv_random (snd (Auth.validateSession token s)) = sv_random s
  /\ sv_env_password (snd (Auth.validateSession token s)) = sv_env_password s.
Proof.
  unfold Auth.validateSession, Session.validateSession, next_reading, same_store.
  destruct (negb (truthy token)); [now repeat split |].
  destruct (Session.sessions_get token (sv_sessions s)) as [e |]; [| now repeat split].
  unfold Auth.now, Date_now. simpl.
  destruct (Z.ltb e _); now repeat split.
Qed.

Lemma auth_validate_live t e s :
  t <> "" -> sv_sessions s !! t = Some e -> next_reading s <= e ->
  Auth.validateSession (VStr t) s = (true, after_reading s).
Proof.
  intros Hne Hget Hle. unfold Auth.validateSession, after_reading. simpl.
  destruct (String.eqb_spec t ""); [contradiction |]. simpl. rewrite Hget.
  unfold Auth.now, Date_now, next_reading in *. simpl.
  destruct (Z.ltb_spec e (clock (sv_world s) (ticks (sv_world s)))); [lia | reflexivity].
Qed.

Lemma validate_sessions_shrink now token (ss : Session.sessions) k e :
  snd (Session.validateSession now token ss) !! k = Some e -> ss !! k = Some e.
Proof.
  unfold Session.validateSession.
  destruct (negb (truthy token)); [exact (fun H => H) |].
  destruct (Session.sessions_get token ss) as [x |]; [| exact (fun H => H)].
  destruct (Z.ltb x now); [| exact (fun H => H)].
  destruct token; simpl; try exact (fun H => H).
  intros H. apply lookup_delete_Some in H. tauto.
Qed.

(** X3. Without a session that validates, a request to any path other
    than the three exempt ones never reaches its route: the answer is 401
    [Unauthorized] under [/api/] and the login page elsewhere, the store
    and its file are untouched, nothing is logged, no token is drawn and
    no session is added. *)
Theorem no_session_no_access (req : AppRequest) (s : Server)
    (Hpath : exempt (rq_path req) = false)
    (Hbad : fst (Session.validateSession (next_reading s)
                   (js_or (rq_cookie req) (rq_header req)) (sv_sessions s)) = false) :
  fst (serve req s)
  = (if String.prefix "/api/" (rq_path req)
     then AJson 401 (PError "Unauthorized") CookieKeep
     else AFile "login.html")
  /\ same_store s (snd (serve req s))
  /\ sv_securityLog (snd (serve req s)) = sv_securityLog s
  /\ sv_draws (snd (serve req s)) = sv_draws s
  /\ forall k e, sv_sessions (snd (serve req s)) !! k = Some e ->
                 sv_sessions s !! k = Some e.
Proof.
  unfold serve, requireAuth. rewrite Hpath.
  set (token := js_or (rq_cookie req) (rq_header req)) in *.
  destruct (auth_validate_agrees token s) as [Hok [Hss [Hst [Hlog [Hdr _]]]]].
  destruct (Auth.validateSession token s) as [ok s1]. simpl in *.
  rewrite Hbad in Hok. subst ok. simpl.
  assert (Hsub : forall k e, sv_sessions s1 !! k = Some e -> sv_sessions s !! k = Some e).
  { intros k e. rewrite Hss. apply validate_sessions_shrink. }
  destruct (String.prefix "/api/" (rq_path req)); simpl;
    (split; [reflexivity |]; split; [exact Hst |]; split; [exact Hlog |];
     split; [exact Hdr | exact Hsub]).
Qed.

Lemma no_session_no_access_witness :
  fst (serve (mkAppRequest "/api/discussions" VUndefined (VStr "guess") sample_client
                (RApi (DeleteDiscussion "1"))) sample_server)
  = AJson 401 (PError "Unauthorized") CookieKeep
  /\ same_store sample_server
       (snd (serve (mkAppRequest "/api/discussions" VUndefined (VStr "guess") sample_client
                      (RApi (DeleteDiscussion "1"))) sample_server)).
Proof.
  destruct (no_session_no_access
              (mkAppRequest "/api/discussions" VUndefined (VStr "guess") sample_client
                 (RApi (DeleteDiscussion "1"))) sample_server)
    as [W1 [W2 _]]; [reflexivity | reflexivity |].
  split; [exact W1 | exact W2].
Defined.

Lemma valid_cookie_passes req s t e :
  exempt (rq_path req) = false ->
  rq_cookie req = VStr t -> t <> "" ->
  sv_sessions s !! t = Some e -> next_reading s <= e ->
  serve req s = dispatch req (after_reading s).
Proof.
  intros Hpath Hc Hne Hget Hle. unfold serve, requireAuth. rewrite Hpath, Hc.
  unfold js_or. simpl. destruct (String.eqb_spec t ""); [contradiction |]. simpl.
  now rewrite (auth_validate_live t e s Hne Hget Hle).
Qed.

Lemma APP_PASSWORD_nonempty env : APP_PASSWORD env <> "".
Proof.
  unfold APP_PASSWORD. destruct env as [s |]; [| discriminate].
  destruct (String.eqb_spec s ""); [discriminate | assumption].
Qed.

Lemma secureCompare_refl s : secureCompare (VStr s) (VStr s) = true.
Proof.
  unfold secureCompare. rewrite Nat.eqb_refl. simpl.
  unfold timingSafeEqual. apply N.eqb_eq. now apply byte_diff_zero.
Qed.


Lemma log_head type message c now log :
  exists ev rest,
    logSecurityEvent type message c now log = ev :: rest
    /\ e_type ev = type /\ e_timestamp ev = now.
Proof.
  unfold logSecurityEvent. set (ev := mkEvent _ _ _ _ _).
  destruct (Nat.ltb_spec MAX_LOG_SIZE (length (ev :: log))) as [Hfull | Hroom].
  - destruct log as [| x r]; [simpl in Hfull; unfold MAX_LOG_SIZE in Hfull; lia |].
    exists ev, (removelast (x :: r)). now repeat split.
  - exists ev, log. now repeat split.
Qed.

(** X4. A login with the configured password draws a token, records it
    with an expiry seven days after the clock reading, logs
    [LOGIN_SUCCESS] and answers with the token, also set as cookie; the
    store is untouched. From then on, and as long as the clock has not
    passed the expiry, a request carrying that token as cookie is handed
    to its route. *)
Theorem login_opens_the_gate (req : AppRequest) (s : Server)
    (Hpath : rq_path req = "/api/login")
    (Hroute : rq_route req = RLogin (VStr (APP_PASSWORD (sv_env_password s))))
    (Htoken : sv_random s (sv_draws s) <> "") :
  let token := sv_random s (sv_draws s) in
  let expiry := next_reading s + Session.WEEK_MS in
  let s' := snd (serve req s) in
  fst (serve req s) = AJson 200 (PLogin token) (CookieSet token)
  /\ sv_sessions s' = <[token := expiry]> (sv_sessions s)
  /\ same_store s s'
  /\ (exists ev rest, sv_securityLog s' = ev :: rest /\ e_type ev = "LOGIN_SUCCESS")
  /\ forall req2,
       exempt (rq_path req2) = false -> rq_cookie req2 = VStr token ->
       next_reading s' <= expiry ->
       serve req2 s' = dispatch req2 (after_reading s').
Proof.
  cbv zeta.
  assert (E : serve req s = login req (VStr (APP_PASSWORD (sv_env_password s))) s).
  { unfold serve, requireAuth, dispatch. now rewrite Hpath, Hroute. }
  rewrite E. unfold login.
  replace (js_or (VStr (APP_PASSWORD (sv_env_password s))) (VStr ""))
    with (VStr (APP_PASSWORD (sv_env_password s))).
  2:{ unfold js_or. simpl.
      destruct (String.eqb_spec (APP_PASSWORD (sv_env_password s)) "") as [Hx | _];
        [now apply APP_PASSWORD_nonempty in Hx | reflexivity]. }
  rewrite secureCompare_refl.
  unfold Auth.createSession, Auth.generateToken, Auth.now, Date_now, Auth.log_event,
    Auth.now, Date_now, with_sessions, with_world, with_securityLog, next_reading.
  simpl.
  split; [reflexivity |]. split; [reflexivity |]. split; [now split |].
  split.
  { destruct (log_head "LOGIN_SUCCESS" "User logged in successfully" (rq_client req)
                (clock (sv_world s) (S (ticks (sv_world s)))) (sv_securityLog s))
      as [ev [rest [Hl [Ht _]]]].
    exists ev, rest. split; [exact Hl | exact Ht]. }
  intros req2 Hex Hc Hle.
  apply (valid_cookie_passes req2 _ (sv_random s (sv_draws s))
           (clock (sv_world s) (ticks (sv_world s)) + Session.WEEK_MS));
    [exact Hex | exact Hc | exact Htoken | | exact Hle].
  simpl. apply lookup_insert_eq.
Qed.

Lemma login_opens_the_gate_witness :
  fst (serve (mkAppRequest "/api/login" VUndefined VUndefined sample_client
                (RLogin (VStr "family2026"))) sample_server)
  = AJson 200 (PLogin sample_token) (CookieSet sample_token).
Proof.
  destruct (login_opens_the_gate
              (mkAppRequest "/api/login" VUndefined VUndefined sample_client
                 (RLogin (VStr "family2026"))) sample_server)
    as [W _]; [reflexivity | reflexivity | discriminate | exact W].
Defined.



(** X6. Logout removes from the session map the token of the
    [x-auth-token] header when there is one, otherwise the token of the
    cookie, and no other session; with no token at all the map is left as
    it is. It answers success and clears the cookie whether or not the
    token was on record, and a later validation of that token fails. *)
Theorem logout_revokes (req : AppRequest) (s : Server) :
  let token := js_or (rq_header req) (rq_cookie req) in
  let s' := snd (logout req s) in
  fst (logout req s) = AJson 200 PSuccess CookieClear
  /\ (truthy token = true -> Session.sessions_get token (sv_sessions s') = None)
  /\ (truthy token = false -> sv_sessions s' = sv_sessions s)
  /\ (forall k, VStr k <> token -> sv_sessions s' !! k = sv_sessions s !! k)
  /\ fst (Auth.validateSession token s') = false
  /\ same_store s s'.
Proof.
  cbv zeta. unfold logout. simpl.
  set (token := js_or (rq_header req) (rq_cookie req)).
  split; [reflexivity |].
  assert (H1 : truthy token = true ->
               Session.sessions_get token (Session.logout token (sv_sessions s)) = None).
  { intros Ht. unfold Session.logout. rewrite Ht. apply sessions_get_delete. }
  split; [exact H1 |].
  split; [intros Ht; unfold Session.logout; now rewrite Ht |].
  split.
  { intros k Hk. unfold Session.logout. destruct (truthy token); [| reflexivity].
    destruct token as [| | b | z | t]; try reflexivity. simpl.
    apply lookup_delete_ne. congruence. }
  split; [| now split].
  unfold Auth.validateSession. simpl.
  destruct (truthy token) eqn:Ht; [| reflexivity]. simpl.
  now rewrite (H1 eq_refl).
Qed.

(** X7. The gate reads the cookie before the header, logout the header
    before the cookie. So when a request to log out carries a valid
    cookie token and a different header token, it passes the gate on the
    cookie, deletes the header's session, and leaves the cookie's session
    on record. *)
Theorem logout_keeps_the_cookie_session (s : Server) (c h : string) (e : Z)
    (cl : ClientInfo)
    (Hc : c <> "") (Hh : h <> "") (Hdiff : c <> h)
    (Hrec : sv_sessions s !! c = Some e) (Hlive : next_reading s <= e) :
  let req := mkAppRequest "/api/logout" (VStr c) (VStr h) cl RLogout in
  fst (serve req s) = AJson 200 PSuccess CookieClear
  /\ sv_sessions (snd (serve req s)) !! c = Some e
  /\ sv_sessions (snd (serve req s)) !! h = None.
Proof.
  cbv zeta.
  rewrite (valid_cookie_passes _ s c e); [| reflexivity | reflexivity | exact Hc
                                          | exact Hrec | exact Hlive].
  unfold dispatch, logout, after_reading, Auth.now, Date_now, js_or. simpl.
  destruct (String.eqb_spec h ""); [contradiction |]. simpl.
  unfold Session.logout. simpl.
  destruct (String.eqb_spec h ""); [contradiction |]. simpl.
  split; [reflexivity |]. split.
  - rewrite lookup_delete_ne; [exact Hrec | congruence].
  - apply lookup_delete_eq.
Qed.

Lemma logout_keeps_the_cookie_session_witness :
  sv_sessions
    (snd (serve (mkAppRequest "/api/logout" (VStr "aa") (VStr "bb") sample_client RLogout)
            (with_sessions {[ "aa" := 1767225600000 ]} sample_server))) !! "aa"
  = Some 1767225600000.
Proof.
  destruct (logout_keeps_the_cookie_session
              (with_sessions {[ "aa" := 1767225600000 ]} sample_server)
              "aa" "bb" 1767225600000 sample_client)
    as [_ [W _]];
    [discriminate | discriminate | discriminate | reflexivity
    | unfold next_reading; simpl; unfold sample_clock; simpl; lia | exact W].
Defined.

(** ** What any request can do to the sessions and to the log *)

Lemma dispatch_sessions req s k e :
  sv_sessions (snd (dispatch req s)) !! k = Some e ->
  sv_sessions s !! k = Some e
  \/ (is_login_success (fst (dispatch req s)) = true /\ k = sv_random s (sv_draws s)).
Proof.
  unfold dispatch. destruct (rq_route req) as [password | | | | r | |]; simpl; auto.
  - unfold login. destruct (secureCompare _ _).
    + unfold Auth.createSession, Auth.generateToken, Auth.now, Date_now, Auth.log_event,
        Auth.now, Date_now, with_sessions, with_world, with_securityLog. simpl.
      intros H. apply lookup_insert_Some in H.
      destruct H as [[<- _] | [_ H]]; [right; now split | now left].
    + unfold Auth.log_event, Auth.now, Date_now, with_securityLog, with_world. simpl.
      now left.
  - unfold verify.
    destruct (auth_validate_agrees (js_or (rq_header req) (rq_cookie req)) s)
      as [_ [Hss _]].
    destruct (Auth.validateSession _ s) as [ok s1]. simpl in Hss.
    destruct ok; simpl; rewrite Hss; intros H; left;
      now apply validate_sessions_shrink in H.
  - unfold Session.logout. destruct (truthy _); [| now left].
    destruct (js_or (rq_header req) (rq_cookie req)); simpl; auto.
    intros H. apply lookup_delete_Some in H. left. tauto.
  - unfold api. destruct (handle r (sv_world s)). simpl. now left.
Qed.

(** X8. Sessions come from successful logins only: after any request,
    every session on record was on record before, unless the answer is a
    successful login and the session is the one of the token just
    drawn. *)
Theorem sessions_only_by_login (req : AppRequest) (s : Server) (k : string) (e : Z)
    (H : sv_sessions (snd (serve req s)) !! k = Some e) :
  sv_sessions s !! k = Some e
  \/ (is_login_success (fst (serve req s)) = true /\ k = sv_random s (sv_draws s)).
Proof.
  unfold serve, requireAuth in *.
  destruct (exempt (rq_path req)); [now apply dispatch_sessions |].
  set (token := js_or (rq_cookie req) (rq_header req)) in *.
  destruct (auth_validate_agrees token s) as [_ [Hss [_ [_ [Hdr [Hrnd _]]]]]].
  destruct (Auth.validateSession token s) as [ok s1]. simpl in Hss, Hdr, Hrnd.
  assert (Hsub : forall k e, sv_sessions s1 !! k = Some e -> sv_sessions s !! k = Some e).
  { intros k' e'. rewrite Hss. apply validate_sessions_shrink. }
  destruct ok; simpl in H |- *.
  - apply dispatch_sessions in H. rewrite Hdr, Hrnd in H.
    destruct H as [H | H]; [left; now apply Hsub | now right].
  - left. apply Hsub. destruct (String.prefix "/api/" (rq_path req)); exact H.
Qed.

Lemma sessions_only_by_login_witness :
  (∅ : gmap string Z) !! sample_token = Some (1767225600000 + Session.WEEK_MS)
  \/ (is_login_success
        (fst (serve (mkAppRequest "/api/login" VUndefined VUndefined sample_client
                       (RLogin (VStr "family2026"))) sample_server)) = true
      /\ sample_token = sample_token).
Proof.
  apply (sessions_only_by_login
           (mkAppRequest "/api/login" VUndefined VUndefined sample_client
              (RLogin (VStr "family2026"))) sample_server sample_token
           (1767225600000 + Session.WEEK_MS)).
  reflexivity.
Defined.

Lemma dispatch_log_bound req s :
  (length (sv_securityLog s) <= MAX_LOG_SIZE)%nat ->
  (length (sv_securityLog (snd (dispatch req s))) <= MAX_LOG_SIZE)%nat.
Proof.
  intros Hb.
  assert (Hlog : forall ty msg c t,
            (length (logSecurityEvent ty msg c t (sv_securityLog s)) <= MAX_LOG_SIZE)%nat).
  { intros ty msg c t. unfold logSecurityEvent. set (ev := mkEvent _ _ _ _ _).
    destruct (Nat.ltb_spec MAX_LOG_SIZE (length (ev :: sv_securityLog s))) as [Hf | Hr].
    - rewrite removelast_firstn_length, length_firstn. simpl length in *. lia.
    - exact Hr. }
  unfold dispatch. destruct (rq_route req) as [password | | | | r | |]; simpl; auto.
  - unfold login. destruct (secureCompare _ _).
    + unfold Auth.createSession, Auth.generateToken, Auth.now, Date_now, Auth.log_event,
        Auth.now, Date_now, with_sessions, with_world, with_securityLog. simpl.
      apply Hlog.
    + unfold Auth.log_event, Auth.now, Date_now, with_securityLog, with_world. simpl.
      apply Hlog.
  - unfold verify.
    destruct (auth_validate_agrees (js_or (rq_header req) (rq_cookie req)) s)
      as [_ [_ [_ [Hl _]]]].
    destruct (Auth.validateSession _ s) as [ok s1]. simpl in Hl.
    destruct ok; simpl; now rewrite Hl.
  - unfold api. destruct (handle r (sv_world s)). simpl. exact Hb.
Qed.

Lemma serve_log_bound req s :
  (length (sv_securityLog s) <= MAX_LOG_SIZE)%nat ->
  (length (sv_securityLog (snd (serve req s))) <= MAX_LOG_SIZE)%nat.
Proof.
  intros Hb. unfold serve, requireAuth.
  destruct (exempt (rq_path req)); [now apply dispatch_log_bound |].
  set (token := js_or (rq_cookie req) (rq_header req)).
  destruct (auth_validate_agrees token s) as [_ [_ [_ [Hl _]]]].
  destruct (Auth.validateSession token s) as [ok s1]. simpl in Hl.
  destruct ok; simpl.
  - apply dispatch_log_bound. now rewrite Hl.
  - destruct (String.prefix "/api/" (rq_path req)); simpl; now rewrite Hl.
Qed.

(** X9. Whatever requests are served, in whatever number, a security log
    that starts within its bound of 1000 entries stays within it, and the
    log endpoint never shows more than 50 of them. *)
Theorem security_log_stays_bounded (reqs : list AppRequest) (s : Server)
    (H : (length (sv_securityLog s) <= MAX_LOG_SIZE)%nat) :
  (length (sv_securityLog (snd (serve_all reqs s))) <= MAX_LOG_SIZE)%nat
  /\ exists shown,
       fst (security_log (snd (serve_all reqs s))) = AJson 200 (PEvents shown) CookieKeep
       /\ (length shown <= 50)%nat
       /\ exists older, sv_securityLog (snd (serve_all reqs s)) = (shown ++ older)%list.
Proof.
  assert (Hb : (length (sv_securityLog (snd (serve_all reqs s))) <= MAX_LOG_SIZE)%nat).
  { revert s H. induction reqs as [| req rest IH]; intros s H; simpl; [exact H |].
    destruct (serve req s) as [a s1] eqn:E1.
    specialize (IH s1). destruct (serve_all rest s1) as [answers s2]. simpl in *.
    apply IH. replace s1 with (snd (serve req s)) by now rewrite E1.
    now apply serve_log_bound. }
  split; [exact Hb |].
  unfold security_log. simpl. eexists. split; [reflexivity |].
  split; [apply firstn_le_length |].
  exists (skipn 50 (sv_securityLog (snd (serve_all reqs s)))).
  symmetry. apply firstn_skipn.
Qed.

Lemma security_log_stays_bounded_witness :
  (length (sv_securityLog
             (snd (serve_all
                     [mkAppRequest "/api/login" VUndefined VUndefined sample_client
                        (RLogin (VStr "nope"));
                      mkAppRequest "/api/login" VUndefined VUndefined sample_client
                        (RLogin (VStr "family2026"))]
                     sample_server))) <= MAX_LOG_SIZE)%nat.
Proof.
  apply (security_log_stays_bounded
           [mkAppRequest "/api/login" VUndefined VUndefined sample_client
              (RLogin (VStr "nope"));
            mkAppRequest "/api/login" VUndefined VUndefined sample_client
              (RLogin (VStr "family2026"))]
           sample_server).
  simpl. unfold MAX_LOG_SIZE. lia.
Defined.

(** ** Lists changed in one place *)

Lemma update_first_split {A : Type} (p : A -> bool) (f : A -> A) l x :
  find p l = Some x ->
  exists before after,
    l = (before ++ x :: after)%list
    /\ Forall (fun y => p y = false) before
    /\ p x = true
    /\ update_first p f l = (before ++ f x :: after)%list.
Proof.
  induction l as [| y r IH]; simpl; [discriminate |].
  destruct (p y) eqn:Hy.
  - intros E. injection E as <-. exists [], r. now repeat split.
  - intros E. destruct (IH E) as [before [after [-> [Hb [Hx Hu]]]]].
    exists (y :: before), after. repeat split; try assumption.
    + now constructor.
    + simpl. now rewrite Hu.
Qed.

Lemma update_first_none {A : Type} (p : A -> bool) (f : A -> A) l :
  find p l = None -> update_first p f l = l.
Proof.
  induction l as [| y r IH]; simpl; [reflexivity |].
  destruct (p y); [discriminate |]. intros E. now rewrite IH.
Qed.

Lemma find_filter_negb {A : Type} (p : A -> bool) l :
  find p (List.filter (fun x => negb (p x)) l) = None.
Proof.
  induction l as [| y r IH]; simpl; [reflexivity |].
  destruct (p y) eqn:Hy; simpl; [exact IH | now rewrite Hy].
Qed.

Lemma filter_filter_same {A : Type} (p : A -> bool) l :
  List.filter p (List.filter p l) = List.filter p l.
Proof.
  induction l as [| y r IH]; simpl; [reflexivity |].
  destruct (p y) eqn:Hy; simpl; [now rewrite Hy, IH | exact IH].
Qed.

Lemma filter_length_split {A : Type} (p : A -> bool) l :
  (length (List.filter p l) + length (List.filter (fun x => negb (p x)) l))%nat
  = length l.
Proof.
  induction l as [| y r IH]; simpl; [reflexivity |].
  destruct (p y); simpl; lia.
Qed.

Lemma filter_length_le {A : Type} (p : A -> bool) l :
  (length (List.filter p l) <= length l)%nat.
Proof.
  induction l as [| y r IH]; simpl; [lia |]. destruct (p y); simpl; lia.
Qed.

Lemma list_for_user_In user ns n :
  In n (list_for_user user ns) -> In n ns /\ n_user n = user.
Proof.
  unfold list_for_user. intros H.
  assert (Hs : In n (Array_sort newest_first (List.filter (for_user user) ns))).
  { rewrite <- (firstn_skipn 50 (Array_sort _ _)). apply in_or_app. now left. }
  apply (Permutation_in n (Array_sort_perm n_created_at _)) in Hs.
  apply filter_In in Hs. destruct Hs as [Hin Hu]. split; [exact Hin |].
  unfold for_user in Hu. now apply String.eqb_eq in Hu.
Qed.

(** ** Notifications *)

(** X10. Marking all as read for a user sets [read] on every
    notification of that user and changes nothing else: the notifications
    of other users, the order and number of notifications, the
    discussions, sections and counters are as before; the listing for that
    user then shows no unread notification, and the file holds the new
    store. *)
Theorem read_all_marks_only_the_user (user : string) (w : World) :
  let w' := snd (patch_read_all user w) in
  fst (patch_read_all user w) = mkResponse 200 BSuccess
  /\ Forall2 (fun a b => if String.eqb (n_user a) user then b = mark_read a else b = a)
             (notifications (db w)) (notifications (db w'))
  /\ Forall (fun n => n_read n = true) (list_for_user user (notifications (db w')))
  /\ discussions (db w') = discussions (db w)
  /\ sections (db w') = sections (db w)
  /\ nextId (db w') = nextId (db w)
  /\ disk w' = FJson (stringify (db w')).
Proof.
  cbv zeta. rewrite patch_read_all_eq. cbv zeta. cbn [fst snd db notifications].
  split; [reflexivity |]. split.
  { induction (notifications (db w)) as [| a r IH]; simpl; constructor; [| exact IH].
    unfold for_user. now destruct (String.eqb (n_user a) user). }
  split.
  { apply List.Forall_forall. intros n Hn. apply list_for_user_In in Hn.
    destruct Hn as [Hin Hu]. apply in_map_iff in Hin. destruct Hin as [a [Ha _]].
    unfold for_user in Ha. destruct (String.eqb_spec (n_user a) user) as [E | E].
    - now subst n.
    - subst n. contradiction. }
  now repeat split.
Qed.

(** X11. Marking one notification as read changes the first notification
    whose id is the number [:id] parses to, and only its [read] flag; when
    no notification has that id (or [:id] is not a number) the answer is
    still success and nothing at all changes. *)
Theorem mark_read_first_match (id : string) (w : World) :
  let hit := fun n => eq_parsed (n_id n) (parseInt_string id) in
  let w' := snd (patch_notification_read id w) in
  fst (patch_notification_read id w) = mkResponse 200 BSuccess
  /\ (find hit (notifications (db w)) = None -> w' = w)
  /\ (forall n, find hit (notifications (db w)) = Some n ->
        exists before after,
          notifications (db w) = (before ++ n :: after)%list
          /\ Forall (fun m => hit m = false) before
          /\ parseInt_string id = Some (n_id n)
          /\ notifications (db w') = (before ++ mark_read n :: after)%list
          /\ discussions (db w') = discussions (db w)
          /\ nextId (db w') = nextId (db w)
          /\ disk w' = FJson (stringify (db w'))).
Proof.
  cbv zeta.
  destruct (find (fun n => eq_parsed (n_id n) (parseInt_string id)) (notifications (db w)))
    as [n |] eqn:Hf.
  - rewrite (patch_notification_read_found id w n Hf). cbv zeta.
    cbn [fst snd db notifications discussions nextId disk].
    split; [reflexivity |]. split; [discriminate |].
    intros n' E. injection E as <-.
    destruct (update_first_split _ mark_read _ n Hf) as [before [after [Hl [Hb [Hn Hu]]]]].
    exists before, after. split; [exact Hl |]. split; [exact Hb |]. split.
    + unfold eq_parsed in Hn. destruct (parseInt_string id) as [k |]; [| discriminate].
      apply Z.eqb_eq in Hn. now subst.
    + now repeat split.
  - rewrite (patch_notification_read_missing id w Hf). simpl.
    split; [reflexivity |]. split; [reflexivity | discriminate].
Qed.

(** ** Deleting, counting and resolving discussions *)

(** X12. Deleting removes every discussion whose id is the number [:id]
    parses to and keeps all others in their order; sections,
    notifications (also those that point to a removed discussion) and
    counters are untouched. Deleting again changes nothing more, and a
    reply to the deleted id is answered 404. *)
Theorem delete_removes_the_id (id : string) (w : World) :
  let w' := snd (delete_discussion id w) in
  fst (delete_discussion id w) = mkResponse 200 BSuccess
  /\ discussions (db w')
     = List.filter (fun x => negb (has_id id x)) (discussions (db w))
  /\ find (has_id id) (discussions (db w')) = None
  /\ sections (db w') = sections (db w)
  /\ notifications (db w') = notifications (db w)
  /\ nextId (db w') = nextId (db w)
  /\ db (snd (delete_discussion id w')) = db w'
  /\ (forall text author,
        fst (post_reply id text author w')
        = mkResponse 404 (BError "Discussion not found")).
Proof.
  cbv zeta. rewrite delete_discussion_eq. cbv zeta.
  cbn [fst snd db discussions sections notifications nextId].
  assert (Hnone : find (has_id id)
                    (List.filter (fun x => negb (has_id id x)) (discussions (db w))) = None)
    by apply find_filter_negb.
  split; [reflexivity |]. split; [reflexivity |]. split; [exact Hnone |].
  split; [reflexivity |]. split; [reflexivity |]. split; [reflexivity |].
  split.
  - rewrite delete_discussion_eq. cbv zeta.
    cbn [snd db discussions sections notifications nextId].
    now rewrite filter_filter_same.
  - intros text author. now rewrite post_reply_missing.
Qed.

Lemma count_split {A : Type} (p : A -> bool) l :
  count p l + count (fun x => negb (p x)) l = Z.of_nat (length l).
Proof. unfold count. rewrite <- (filter_length_split p l). lia. Qed.

Lemma count_disjoint {A : Type} (p q : A -> bool) l :
  (forall x, p x = true -> q x = false) ->
  count p l + count q l <= Z.of_nat (length l).
Proof.
  intros H. unfold count. induction l as [| y r IH]; simpl; [lia |].
  destruct (p y) eqn:Hp; [rewrite (H y Hp) |]; simpl.
  - lia.
  - destruct (q y); simpl; lia.
Qed.

(** X13. The statistics are consistent with the store: [resolved] and
    [pending] add up to the number of discussions, comments and questions
    together do not exceed it, nor do Francisco's and Wife's items, and
    [totalSections] is the number of sections. Computing them changes
    nothing. *)
Theorem stats_add_up (w : World) :
  exists s,
    get_stats w = (mkResponse 200 (BStats s), w)
    /\ st_resolved s + st_pending s = Z.of_nat (length (discussions (db w)))
    /\ totalComments s + totalQuestions s <= Z.of_nat (length (discussions (db w)))
    /\ franciscoItems s + wifeItems s <= Z.of_nat (length (discussions (db w)))
    /\ totalSections s = Z.of_nat (length (sections (db w)))
    /\ 0 <= st_pending s /\ 0 <= st_resolved s.
Proof.
  eexists. split; [reflexivity |]. cbn [st_resolved st_pending totalComments
    totalQuestions franciscoItems wifeItems totalSections].
  split; [apply count_split |].
  assert (Hd : forall (v : jsval) a b, a <> b ->
            strict_eq v (VStr a) = true -> strict_eq v (VStr b) = false).
  { intros v a b Hab Ha. apply strict_eq_spec in Ha. subst v.
    apply strict_eq_false. congruence. }
  split; [apply count_disjoint; intros x; apply Hd; discriminate |].
  split; [apply count_disjoint; intros x; apply Hd; discriminate |].
  split; [reflexivity |]. unfold count. lia.
Qed.

Lemma count_app {A : Type} (p : A -> bool) l1 l2 :
  count p (l1 ++ l2) = count p l1 + count p l2.
Proof. unfold count. rewrite List.filter_app, length_app. lia. Qed.

Lemma count_cons {A : Type} (p : A -> bool) x l :
  count p (x :: l) = (if p x then 1 else 0) + count p l.
Proof. unfold count. simpl. destruct (p x); simpl length; lia. Qed.

(** X14. Resolving a discussion that is pending moves exactly one item
    from [pending] to [resolved] in the statistics; reopening one that is
    resolved moves it back. The other counts do not change. *)
Theorem resolve_moves_one_in_stats (id : string) (resolved resolved_by : jsval)
    (w : World) (x : Discussion)
    (Hfind : find (has_id id) (discussions (db w)) = Some x)
    (Hflip : truthy resolved = negb (truthy (d_resolved x))) :
  let w' := snd (patch_resolve id resolved resolved_by w) in
  exists s s',
    stats_of w = Some s /\ stats_of w' = Some s'
    /\ (if truthy resolved
        then st_resolved s' = st_resolved s + 1 /\ st_pending s' = st_pending s - 1
        else st_resolved s' = st_resolved s - 1 /\ st_pending s' = st_pending s + 1)
    /\ totalComments s' = totalComments s
    /\ totalQuestions s' = totalQuestions s
    /\ franciscoItems s' = franciscoItems s
    /\ wifeItems s' = wifeItems s
    /\ totalSections s' = totalSections s.
Proof.
  cbv zeta. rewrite (patch_resolve_found id resolved resolved_by w x Hfind). cbv zeta.
  cbn [snd]. unfold stats_of, get_stats, bind, getDB, ret, json_ok.
  cbn [fst body db discussions sections].
  do 2 eexists. split; [reflexivity |]. split; [reflexivity |].
  cbn [st_resolved st_pending totalComments totalQuestions franciscoItems wifeItems
       totalSections].
  destruct (update_first_split (has_id id)
              (set_resolution resolved resolved_by
                 (if truthy resolved then Some (clock w (ticks w)) else None))
              _ x Hfind) as [before [after [Hl [_ [_ Hu]]]]].
  rewrite Hu, Hl. rewrite !count_app, !count_cons.
  cbn [set_resolution d_resolved d_type d_author].
  rewrite Hflip. destruct (truthy (d_resolved x)); simpl negb; cbn iota;
    repeat split; lia.
Qed.

Lemma resolve_moves_one_in_stats_witness :
  exists s s',
    stats_of (snd (post_discussion (VNum 2) (VStr "question") (VStr "Why?") (VStr "Wife")
                     (fresh_world sample_clock))) = Some s
    /\ stats_of (snd (patch_resolve "1" (VBool true) (VStr "Francisco")
                        (snd (post_discussion (VNum 2) (VStr "question") (VStr "Why?")
                                (VStr "Wife") (fresh_world sample_clock))))) = Some s'
    /\ st_resolved s' = st_resolved s + 1 /\ st_pending s' = st_pending s - 1.
Proof.
  destruct (resolve_moves_one_in_stats "1" (VBool true) (VStr "Francisco")
              (snd (post_discussion (VNum 2) (VStr "question") (VStr "Why?") (VStr "Wife")
                      (fresh_world sample_clock)))
              (mkDiscussion 1 (SId 2) (VStr "question") (VStr "Why?") (VStr "Wife")
                 (VBool false) VNull None (sample_clock 0) []))
    as [s [s' [H1 [H2 [H3 _]]]]]; [reflexivity | reflexivity |].
  exists s, s'. split; [exact H1 |]. split; [exact H2 | exact H3].
Defined.

(** X15. A reply to an existing discussion is appended at the end of the
    thread of the first discussion with that id, under the value of the
    reply counter, which is the id answered; the counter moves by one and
    every other discussion, and every other field of this one, is as
    before. *)
Theorem reply_appends_to_the_thread (id : string) (text author : jsval) (w : World)
    (x : Discussion)
    (Hfind : find (has_id id) (discussions (db w)) = Some x) :
  let w' := snd (post_reply id text author w) in
  let reply := mkReply (next_reply (nextId (db w))) text author (clock w (ticks w)) in
  fst (post_reply id text author w) = mkResponse 200 (BCreated (r_id reply))
  /\ (exists before after,
        discussions (db w) = (before ++ x :: after)%list
        /\ Forall (fun y => has_id id y = false) before
        /\ discussions (db w') = (before ++ with_reply reply x :: after)%list)
  /\ d_replies (with_reply reply x) = (d_replies x ++ [reply])%list
  /\ d_id (with_reply reply x) = d_id x
  /\ d_text (with_reply reply x) = d_text x
  /\ d_resolved (with_reply reply x) = d_resolved x
  /\ next_reply (nextId (db w')) = next_reply (nextId (db w)) + 1
  /\ next_discussion (nextId (db w')) = next_discussion (nextId (db w))
  /\ sections (db w') = sections (db w).
Proof.
  cbv zeta. rewrite (post_reply_found id text author w x Hfind). cbv zeta.
  cbn [fst snd db discussions sections nextId next_reply next_discussion r_id].
  split; [reflexivity |]. split.
  { destruct (update_first_split (has_id id)
                (with_reply (mkReply (next_reply (nextId (db w))) text author
                               (clock w (ticks w)))) _ x Hfind)
      as [before [after [Hl [Hb [_ Hu]]]]].
    exists before, after. split; [exact Hl |]. split; [exact Hb | exact Hu]. }
  now repeat split.
Qed.

Lemma reply_appends_to_the_thread_witness :
  fst (post_reply "1" (VStr "Small businesses") (VStr "Wife")
         (snd (post_discussion (VNum 3) (VStr "question") (VStr "Which market?")
                 (VStr "Francisco") (fresh_world sample_clock))))
  = mkResponse 200 (BCreated 1).
Proof.
  destruct (reply_appends_to_the_thread "1" (VStr "Small businesses") (VStr "Wife")
              (snd (post_discussion (VNum 3) (VStr "question") (VStr "Which market?")
                      (VStr "Francisco") (fresh_world sample_clock)))
              (mkDiscussion 1 (SId 3) (VStr "question") (VStr "Which market?")
                 (VStr "Francisco") (VBool false) VNull None (sample_clock 0) []))
    as [W _]; [reflexivity | exact W].
Defined.

Lemma Forall2_update_first {A : Type} (R : A -> A -> Prop) (p : A -> bool) (f : A -> A) l :
  (forall x, R x x) -> (forall x, R x (f x)) -> Forall2 R l (update_first p f l).
Proof.
  intros Hrefl Hf. induction l as [| y r IH]; simpl; [constructor |].
  destruct (p y); constructor; auto.
  clear IH. induction r; constructor; auto.
Qed.

(** X16. Resolving or reopening emits no notification and assigns no id:
    notifications, counters and sections are as before, the number and
    order of discussions are unchanged, and no discussion changes in
    anything but its three resolution fields. *)
Theorem resolve_is_silent (id : string) (resolved resolved_by : jsval) (w : World) :
  let w' := snd (patch_resolve id resolved resolved_by w) in
  notifications (db w') = notifications (db w)
  /\ nextId (db w') = nextId (db w)
  /\ sections (db w') = sections (db w)
  /\ Forall2 same_but_resolution (discussions (db w)) (discussions (db w')).
Proof.
  cbv zeta.
  assert (Hrefl : forall x, same_but_resolution x x) by (intros x; now repeat split).
  destruct (find (has_id id) (discussions (db w))) as [x |] eqn:Hf.
  - rewrite (patch_resolve_found id resolved resolved_by w x Hf). cbv zeta.
    cbn [snd db notifications nextId sections discussions].
    split; [reflexivity |]. split; [reflexivity |]. split; [reflexivity |].
    apply Forall2_update_first; [exact Hrefl |]. intros y. now repeat split.
  - rewrite (patch_resolve_missing id resolved resolved_by w Hf). cbn [snd].
    split; [reflexivity |]. split; [reflexivity |]. split; [reflexivity |].
    clear Hf. induction (discussions (db w)) as [| y r IH]; constructor;
      [apply Hrefl | exact IH].
Qed.

(** ** Sections *)

(** X17. Updating an existing section and then fetching it gives the
    section with the new title and content, stamped with the time of the
    update, under the same id and level; the number of sections, the
    discussions and the notifications do not change. Updating a section
    that does not exist answers success and changes nothing, and fetching
    one answers 404. *)
Theorem put_then_get_section (id : string) (title content : jsval) (w : World) :
  let hit := fun s => eq_parsed (s_id s) (parseInt_string id) in
  let w' := snd (put_section id title content w) in
  fst (put_section id title content w) = mkResponse 200 BSuccess
  /\ (find hit (sections (db w)) = None ->
      w' = w
      /\ fst (get_section id w) = mkResponse 404 (BError "Section not found"))
  /\ (forall s0, find hit (sections (db w)) = Some s0 ->
        fst (get_section id w')
        = mkResponse 200
            (BSection (mkSection (s_id s0) title (s_level s0) content
                                 (Some (clock w (ticks w)))))
        /\ length (sections (db w')) = length (sections (db w))
        /\ discussions (db w') = discussions (db w)
        /\ notifications (db w') = notifications (db w)
        /\ disk w' = FJson (stringify (db w'))).
Proof.
  cbv zeta.
  destruct (find (fun s => eq_parsed (s_id s) (parseInt_string id)) (sections (db w)))
    as [s0 |] eqn:Hf.
  - rewrite (put_section_found id title content w s0 Hf). cbv zeta. cbn [fst snd].
    split; [reflexivity |]. split; [discriminate |].
    intros s E. injection E as <-.
    cbn [db sections discussions notifications disk].
    split.
    + unfold get_section, bind, getDB, ret. cbn [db sections].
      rewrite (find_update_first _ (edit_section title content (clock w (ticks w)))
                 _ s0); [reflexivity | reflexivity | exact Hf].
    + split; [| now repeat split].
      destruct (update_first_split _ (edit_section title content (clock w (ticks w)))
                  _ s0 Hf) as [before [after [Hl [_ [_ Hu]]]]].
      rewrite Hu, Hl, !length_app. reflexivity.
  - rewrite (put_section_missing id title content w Hf). cbn [fst snd].
    split; [reflexivity |]. split; [| discriminate].
    intros _. split; [reflexivity |].
    unfold get_section, bind, getDB. now rewrite Hf.
Qed.

(** X18. The discussions of a section are exactly those whose
    [section_id] is the number that [:id] parses to, in store order: a
    general discussion ([section_id] null) is never among them, and an
    [:id] that is not a number lists nothing. The request changes
    nothing. *)
Theorem section_discussions_by_number (id : string) (w : World) :
  exists l,
    get_section_discussions id w = (mkResponse 200 (BDiscussions l), w)
    /\ (parseInt_string id = None -> l = [])
    /\ (forall k, parseInt_string id = Some k ->
          l = List.filter (fun x => match d_section_id x with
                                    | SId z => Z.eqb z k
                                    | _ => false
                                    end) (discussions (db w)))
    /\ Forall (fun x => exists k, d_section_id x = SId k /\ parseInt_string id = Some k) l.
Proof.
  eexists. split; [reflexivity |]. split; [| split].
  - intros E. rewrite E. induction (discussions (db w)) as [| x r IH]; [reflexivity |].
    simpl. now destruct (d_section_id x).
  - intros k E. rewrite E. apply List.filter_ext. intros x.
    now destruct (d_section_id x).
  - apply List.Forall_forall. intros x Hx. apply filter_In in Hx. destruct Hx as [_ Hx].
    unfold ref_eq_parsed in Hx. destruct (d_section_id x) as [| | z]; try discriminate.
    destruct (parseInt_string id) as [k |]; [| discriminate].
    apply Z.eqb_eq in Hx. subst. now exists k.
Qed.

(** X19. A discussion created with a [section_id] that parses to the id
    of a section is listed, right afterwards, with the title of the first
    section of that id; created with no [section_id], with one that is not
    a number, or with one that no section has, it is listed with a null
    section title. *)
Theorem created_discussion_section_title (section_id type text author : jsval) (w : World) :
  let w' := snd (post_discussion section_id type text author w) in
  exists views v,
    get_discussions w' = (mkResponse 200 (BViews views), w')
    /\ last views = Some v
    /\ length views = S (length (discussions (db w)))
    /\ d_id (v_discussion v) = next_discussion (nextId (db w))
    /\ v_section_title v
       = (if truthy section_id
          then match parseInt section_id with
               | Some k =>
                   match find (section_has_id k) (sections (db w)) with
                   | Some s => s_title s
                   | None => VNull
                   end
               | None => VNull
               end
          else VNull).
Proof.
  cbv zeta. rewrite post_discussion_eq. cbv zeta. cbn [snd].
  unfold get_discussions, bind, getDB, ret, json_ok. cbn [db discussions sections].
  rewrite map_app. cbn [map].
  eexists. eexists. split; [reflexivity |].
  split; [apply last_snoc |].
  split; [rewrite length_app, length_map; simpl; lia |].
  split; [reflexivity |].
  cbn [v_section_title]. unfold section_title, section_ref. cbn [d_section_id sections].
  assert (Hnone : forall (l : list DocSection), find (fun _ => false) l = None)
    by (intros l; induction l; auto).
  destruct (truthy section_id).
  - destruct (parseInt section_id) as [k |]; [reflexivity |].
    change (find (fun s => id_is_ref (s_id s) SNaN) (sections (db w)))
      with (find (fun _ : DocSection => false) (sections (db w))).
    now rewrite Hnone.
  - change (find (fun s => id_is_ref (s_id s) SNull) (sections (db w)))
      with (find (fun _ : DocSection => false) (sections (db w))).
    now rewrite Hnone.
Qed.

(** ** Restarts *)



(** ** Notifications are kept *)











(** ** Ids are unique *)

Lemma fresh_below_app c l k n :
  0 <= n ->
  fresh_below c l -> NoDup k ->
  Forall (fun i => c <= i < c + n) k ->
  fresh_below (c + n) (l ++ k).
Proof.
  intros Hpos [Hn Hb] Hk Hr. split.
  - apply NoDup_app. split; [exact Hn |]. split; [| exact Hk].
    intros x Hx Hx'. rewrite List.Forall_forall in Hb, Hr.
    apply list_elem_of_In in Hx, Hx'. specialize (Hb x Hx). specialize (Hr x Hx'). lia.
  - apply Forall_app. split.
    + eapply List.Forall_impl; [| exact Hb]. simpl. intros; lia.
    + eapply List.Forall_impl; [| exact Hr]. simpl. intros; lia.
Qed.

Lemma fresh_below_perm c l l' :
  Permutation l' l -> fresh_below c l -> fresh_below c l'.
Proof.
  intros Hp [Hn Hb]. split.
  - now rewrite Hp.
  - now rewrite Hp.
Qed.

Lemma fresh_below_cons c l : fresh_below c l -> fresh_below (c + 1) (c :: l).
Proof.
  intros H. apply (fresh_below_perm _ (l ++ [c])).
  - apply Permutation_cons_append.
  - apply fresh_below_app; [lia | exact H | apply NoDup_singleton |].
    constructor; [lia | constructor].
Qed.

Lemma fresh_below_filter_flat {A : Type} (h : A -> list Z) (p : A -> bool) c l :
  fresh_below c (flat_map h l) -> fresh_below c (flat_map h (List.filter p l)).
Proof.
  unfold fresh_below. induction l as [| y r IH]; simpl; [exact (fun H => H) |].
  intros [Hn Hb]. apply NoDup_app in Hn. destruct Hn as [Hy [Hd Hr]].
  apply Forall_app in Hb. destruct Hb as [Hby Hbr].
  destruct (IH (conj Hr Hbr)) as [Hn' Hb'].
  destruct (p y); simpl; [| now split].
  split.
  - apply NoDup_app. split; [exact Hy |]. split; [| exact Hn'].
    intros x Hx Hx'. apply (Hd x Hx).
    apply list_elem_of_In in Hx'. apply list_elem_of_In.
    apply in_flat_map in Hx'. destruct Hx' as [z [Hz Hxz]].
    apply in_flat_map. exists z. split; [| exact Hxz].
    apply filter_In in Hz. tauto.
  - apply Forall_app. now split.
Qed.

Lemma flat_map_singletons {A : Type} (g : A -> Z) l :
  flat_map (fun x => [g x]) l = map g l.
Proof. induction l; simpl; congruence. Qed.

Lemma fresh_below_filter_map {A : Type} (g : A -> Z) (p : A -> bool) c l :
  fresh_below c (map g l) -> fresh_below c (map g (List.filter p l)).
Proof.
  rewrite <- !flat_map_singletons. apply fresh_below_filter_flat.
Qed.

Lemma map_update_first {A B : Type} (g : A -> B) (p : A -> bool) (f : A -> A) l :
  (forall x, g (f x) = g x) -> map g (update_first p f l) = map g l.
Proof.
  intros H. induction l as [| y r IH]; simpl; [reflexivity |].
  destruct (p y); simpl; [now rewrite H | now rewrite IH].
Qed.

Lemma flat_map_update_first {A B : Type} (h : A -> list B) (p : A -> bool) (f : A -> A) l :
  (forall x, h (f x) = h x) -> flat_map h (update_first p f l) = flat_map h l.
Proof.
  intros H. induction l as [| y r IH]; simpl; [reflexivity |].
  destruct (p y); simpl; [now rewrite H | now rewrite IH].
Qed.

Lemma reply_ids_with_reply p reply l x :
  find p l = Some x ->
  Permutation (flat_map (fun y => map r_id (d_replies y)) (update_first p (with_reply reply) l))
              (r_id reply :: flat_map (fun y => map r_id (d_replies y)) l).
Proof.
  intros Hf.
  destruct (update_first_split p (with_reply reply) l x Hf) as [before [after [-> [_ [_ ->]]]]].
  rewrite !flat_map_app. cbn [flat_map with_reply d_replies]. unfold push.
  rewrite map_app. cbn [map].
  set (B := flat_map _ before). set (X := map r_id (d_replies x)).
  set (F := flat_map _ after).
  replace (B ++ (X ++ [r_id reply]) ++ F)%list with ((B ++ X) ++ r_id reply :: F)%list
    by (rewrite <- !app_assoc; reflexivity).
  symmetry. apply Permutation_cons_app. now rewrite <- app_assoc.
Qed.

Lemma reply_notifications_ids users au did : forall nid clk t,
  NoDup (map n_id (reply_notifications users au did nid clk t))
  /\ Forall (fun i => nid <= i < nid + Z.of_nat (length users))
            (map n_id (reply_notifications users au did nid clk t)).
Proof.
  induction users as [| u r IH]; intros nid clk t; simpl.
  - split; constructor.
  - destruct (IH (nid + 1) clk (S t)) as [Hn Hb]. split.
    + apply NoDup_cons. split; [| exact Hn].
      intros Hx. apply list_elem_of_In in Hx. rewrite List.Forall_forall in Hb.
      specialize (Hb _ Hx). lia.
    + constructor; [lia |]. eapply List.Forall_impl; [| exact Hb]. simpl. intros; lia.
Qed.

Lemma handle_keeps_ids r w :
  ids_well_formed (db w) -> ids_well_formed (db (snd (handle r w))).
Proof.
  unfold ids_well_formed, reply_ids. intros [Hd [Hr Hn]].
  destruct r; closed_form w;
    try (split; [exact Hd | split; [exact Hr | exact Hn]]).
  - (* a new discussion *)
    rewrite !map_app, flat_map_app. cbn [map flat_map d_id n_id d_replies].
    rewrite app_nil_r. split; [| split; [exact Hr |]].
    + apply fresh_below_app; [lia | exact Hd | apply NoDup_singleton |].
      constructor; [lia | constructor].
    + apply fresh_below_app; [lia | exact Hn | apply NoDup_singleton |].
      constructor; [lia | constructor].
  - (* a reply *)
    split; [| split].
    + rewrite map_update_first; [exact Hd | reflexivity].
    + match goal with
      | Hf : find _ _ = Some ?x |- _ =>
          eapply fresh_below_perm; [exact (reply_ids_with_reply _ _ _ x Hf) |]
      end.
      cbn [r_id]. now apply fresh_below_cons.
    + rewrite map_app.
      match goal with
      | |- context [reply_notifications ?us ?au ?did ?nid ?clk ?t] =>
          destruct (reply_notifications_ids us au did nid clk t) as [Hnd Hb]
      end.
      apply fresh_below_app; [lia | exact Hn | exact Hnd | exact Hb].
  - (* a resolution *)
    split; [| split; [| exact Hn]].
    + rewrite map_update_first; [exact Hd | reflexivity].
    + rewrite flat_map_update_first; [exact Hr | reflexivity].
  - (* a deletion *)
    split; [| split; [| exact Hn]].
    + now apply fresh_below_filter_map.
    + now apply fresh_below_filter_flat.
  - (* one notification read *)
    split; [exact Hd | split; [exact Hr |]].
    rewrite map_update_first; [exact Hn | reflexivity].
  - (* all read *)
    split; [exact Hd | split; [exact Hr |]].
    rewrite map_map.
    rewrite (List.map_ext _ n_id); [exact Hn |].
    intros a. now destruct (for_user user a).
Qed.

Lemma normalize_keeps_ids d : ids_well_formed d -> ids_well_formed (normalize d).
Proof.
  unfold ids_well_formed, reply_ids, normalize, set_discussions. simpl.
  rewrite map_map. simpl.
  replace (flat_map (fun x => map r_id (d_replies x))
             (map normalize_discussion (discussions d)))
    with (flat_map (fun x => map r_id (d_replies x)) (discussions d));
    [exact (fun H => H) |].
  induction (discussions d) as [| y r IH]; simpl; [reflexivity | now rewrite IH].
Qed.

Lemma reachable_fresh_ids content w :
  reachable_fresh content w -> ids_well_formed (db w).
Proof.
  induction 1 as [f clk t w Hf Hb | w r _ IH | w w' R IH Hr].
  - unfold boot, loadDB in Hb.
    destruct Hf as [-> | ->]; injection Hb as <-;
      (split; [| split]; split; constructor).
  - now apply handle_keeps_ids.
  - rewrite (restart_loadable content w) in Hr
      by (apply (reachable_loadable content), fresh_is_reachable, R).
    injection Hr as <-. simpl. now apply normalize_keeps_ids.
Qed.

(** X22. In every state reached from a fresh install by any requests and
    restarts, no two discussions have the same id, no two replies (in the
    same or in different threads) have the same id, no two notifications
    have the same id, and every id is below the counter it was drawn
    from; so a discussion or a notification found by its id is the only
    one with that id. *)
Theorem ids_are_unique (content : Z -> string) (w : World)
    (H : reachable_fresh content w) :
  ids_well_formed (db w)
  /\ (forall (i j : nat) x y,
        discussions (db w) !! i = Some x -> discussions (db w) !! j = Some y ->
        d_id x = d_id y -> i = j)
  /\ (forall (i j : nat) a b,
        notifications (db w) !! i = Some a -> notifications (db w) !! j = Some b ->
        n_id a = n_id b -> i = j).
Proof.
  pose proof (reachable_fresh_ids content w H) as I.
  split; [exact I |]. destruct I as [[Hd _] [_ [Hn _]]].
  split.
  - intros i j x y Hi Hj E.
    apply (NoDup_lookup (map d_id (discussions (db w))) i j (d_id x)); [exact Hd | |].
    + change (map d_id (discussions (db w))) with (d_id <$> discussions (db w)).
      now rewrite list_lookup_fmap, Hi.
    + change (map d_id (discussions (db w))) with (d_id <$> discussions (db w)).
      rewrite list_lookup_fmap, Hj. simpl. now rewrite E.
  - intros i j a b Hi Hj E.
    apply (NoDup_lookup (map n_id (notifications (db w))) i j (n_id a)); [exact Hn | |].
    + change (map n_id (notifications (db w))) with (n_id <$> notifications (db w)).
      now rewrite list_lookup_fmap, Hi.
    + change (map n_id (notifications (db w))) with (n_id <$> notifications (db w)).
      rewrite list_lookup_fmap, Hj. simpl. now rewrite E.
Qed.

Lemma ids_are_unique_witness : ids_well_formed (db session_world).
Proof.
  apply (ids_are_unique no_text session_world session_world_reachable).
Defined.

(** ** Time labels *)

(** X23. [formatTime] shows "Just now" for anything less than a minute
    old, timestamps in the future included; otherwise whole minutes from 1
    to 59, whole hours from 1 to 23, or whole days from 1 to 6, each the
    elapsed time rounded down; and from seven days on, the date as the
    locale prints it. *)
Theorem formatTime_ranges (toLocaleDateString : Z -> string) (now date : Z) :
  let diff := now - date in
  match age now date with
  | JustNow =>
      diff < 60000 /\ formatTime toLocaleDateString now date = "Just now"
  | MinutesAgo n =>
      1 <= n <= 59 /\ n * 60000 <= diff < (n + 1) * 60000
      /\ formatTime toLocaleDateString now date = pretty n ++ "m ago"
  | HoursAgo n =>
      1 <= n <= 23 /\ n * 3600000 <= diff < (n + 1) * 3600000
      /\ formatTime toLocaleDateString now date = pretty n ++ "h ago"
  | DaysAgo n =>
      1 <= n <= 6 /\ n * 86400000 <= diff < (n + 1) * 86400000
      /\ formatTime toLocaleDateString now date = pretty n ++ "d ago"
  | OnDate d =>
      d = date /\ 604800000 <= diff
      /\ formatTime toLocaleDateString now date = toLocaleDateString date
  end.
Proof.
  cbv zeta. unfold formatTime, age.
  destruct (Z.ltb_spec (now - date) 60000) as [H1 | H1]; [now split |].
  destruct (Z.ltb_spec (now - date) 3600000) as [H2 | H2].
  { split; [| split; [| reflexivity]].
    - split; [apply Z.div_le_lower_bound; lia | apply Z.lt_succ_r, Z.div_lt_upper_bound; lia].
    - pose proof (Z.mul_div_le (now - date) 60000 ltac:(lia)).
      pose proof (Z.mul_succ_div_gt (now - date) 60000 ltac:(lia)). lia. }
  destruct (Z.ltb_spec (now - date) 86400000) as [H3 | H3].
  { split; [| split; [| reflexivity]].
    - split; [apply Z.div_le_lower_bound; lia | apply Z.lt_succ_r, Z.div_lt_upper_bound; lia].
    - pose proof (Z.mul_div_le (now - date) 3600000 ltac:(lia)).
      pose proof (Z.mul_succ_div_gt (now - date) 3600000 ltac:(lia)). lia. }
  destruct (Z.ltb_spec (now - date) 604800000) as [H4 | H4].
  { split; [| split; [| reflexivity]].
    - split; [apply Z.div_le_lower_bound; lia | apply Z.lt_succ_r, Z.div_lt_upper_bound; lia].
    - pose proof (Z.mul_div_le (now - date) 86400000 ltac:(lia)).
      pose proof (Z.mul_succ_div_gt (now - date) 86400000 ltac:(lia)). lia. }
  now repeat split.
Qed.

Example formatTime_examples :
  formatTime (fun _ => "1/1/2026") 1767225600000 1767225700000 = "Just now"
  /\ formatTime (fun _ => "1/1/2026") 1767225600000 1767225480000 = "2m ago"
  /\ formatTime (fun _ => "1/1/2026") 1767225600000 1767139200000 = "1d ago"
  /\ formatTime (fun _ => "1/1/2026") 1767830400000 1767225600000 = "1/1/2026".
Proof. repeat split; vm_compute; reflexivity. Qed.

(** ** Numbers through [String] and [parseInt] *)








